(** * DARTS search network (darts/model_search.py): a shallow embedding

    The Python module builds a differentiable-architecture-search network out
    of [MixedOp], [Cell], [InnerCell], [ModelForModelSizeMeasure], [Network]
    and [EMNIST].  The embedding follows the source class by class:

    - constructed [nn.Module] objects are symbolic terms of type [module];
    - Python [int]s are [Z]; loop counters produced by [range] are [nat];
    - an exception is [None];
    - architecture weights are tables (lists of rows) stored in a heap of
      tensors, so that aliasing and in-place copies can be stated;
    - scalar and tensor arithmetic belongs to the external numeric engine and
      is taken through the interfaces [Scalar] and [Tensor].  Scalars are
      compared as a total preorder, which is what floating-point comparison
      is on values that are not NaN.

    What the terms leave out.  A [module] term carries the arguments of its
    constructor and nothing else:

    - torch raises when a module is constructed with a negative channel
      count; the terms are built for every integer.  Where a theorem
      concludes that a constructor returns, the conclusion is to be read
      for positive widths;
    - tensors carry no shapes: [run] and [cat] are total, whereas the engine
      raises when channel counts or spatial sizes do not fit.  No statement
      below says that a forward pass of a whole network returns;
    - the parameters that a constructor draws for a module are not
      modelled: the random stream is advanced by [torch.randn] only, and two
      modules built from equal arguments are equal terms.  Nothing is
      stated about the values a fresh table receives, nor about two
      separately constructed modules computing the same function. *)

From Stdlib Require Import ZArith String Lia.
From stdpp Require Import base option list strings sorting.

Unset Default Proof Using.

(** ** The external numeric engine *)

(** Scalars: the entries of a weight row. *)
Class Scalar (W : Type) := {
  wleb : W -> W -> bool;             (* a <= b *)
  wopp : W -> W;                     (* -a *)
  wzero : W;
  wone : W;
  w_init : W -> W;                   (* 1e-3 * a *)
  softmax : list W -> list W;        (* F.softmax(row, dim=-1) *)
  noise : nat -> W                   (* the stream torch.randn draws from *)
}.

(** [a < b], and [a > b] as [wltb b a]. *)
Definition wltb `{Scalar W} (a b : W) : bool := negb (wleb b a).

Class ScalarOrder (W : Type) `{Scalar W} : Prop := {
  wleb_total : forall a b : W, wleb a b = true \/ wleb b a = true;
  wleb_trans : forall a b c : W, wleb a b = true -> wleb b c = true -> wleb a c = true;
  wopp_anti : forall a b : W, wleb (wopp a) (wopp b) = wleb b a;
  wzero_wone : wltb wzero wone = true;
  softmax_length : forall r : list W, length (softmax r) = length r
}.

(** Constructed modules, as terms. [Op name C stride affine] stands for the
    object returned by [OPS[name](C, stride, affine)]. *)
Inductive module : Type :=
| Op (name : string) (C stride : Z) (affine : bool)
| BatchNorm2d (C : Z) (affine : bool)
| Sequential (first second : module)
| Conv2d (c_in c_out kernel padding : Z) (bias : bool)
| FactorizedReduce (c_in c_out : Z) (affine : bool)
| ReLUConvBN (c_in c_out kernel stride padding : Z) (affine : bool)
| AdaptiveAvgPool2d (size : Z)
| Linear (c_in c_out : Z).

(** Tensors: feature maps flowing through a cell. [tzero] is the integer [0]
    that Python's [sum] starts from. *)
Class Tensor (W T : Type) := {
  tzero : T;
  tadd : T -> T -> T;
  tscale : W -> T -> T;               (* w * t *)
  cat : list T -> T;                  (* torch.cat(ts, dim=1) *)
  run : module -> T -> T              (* m(x) *)
}.

(** The two constants imported from [darts.genotypes] and
    [darts.operations]: the ordered primitive names and the keys of the
    [OPS] dictionary in iteration order. *)
Class Registry := {
  PRIMITIVES : list string;
  OPS_keys : list string
}.

(** ** Python built-ins used by the source *)

(** [sub in s] on strings. *)
Fixpoint contains (sub s : string) : bool :=
  if String.prefix sub s then true
  else match s with
       | EmptyString => false
       | String _ s' => contains sub s'
       end.

(** [l.index(x)]: the first position of [x], [None] for [ValueError]. *)
Definition py_index (x : string) (l : list string) : option nat :=
  fst <$> list_find (fun y => y = x) l.

(** [sum(ts)]: a left fold starting from [0]. *)
Definition py_sum `{Tensor W T} (ts : list T) : T := fold_left tadd ts tzero.

(** [torch.cat(ts, dim=1)] as the source calls it: an empty list of
    tensors raises. *)
Definition torch_cat `{Tensor W T} (ts : list T) : option T :=
  match ts with
  | [] => None
  | _ :: _ => Some (cat ts)
  end.

(** [l[start:]] for an integer [start], with Python's clamping. *)
Definition slice_from {A} (start : Z) (l : list A) : list A :=
  let n := Z.of_nat (length l) in
  let s := if (start <? 0)%Z then Z.max 0 (n + start) else Z.min start n in
  drop (Z.to_nat s) l.

(** [for x in xs: acc = body(acc, x)] where the body may raise. *)
Fixpoint for_each {A S} (body : S -> A -> option S) (xs : list A) (acc : S) : option S :=
  match xs with
  | [] => Some acc
  | x :: xs' => acc' ← body acc x; for_each body xs' acc'
  end.

(** One linear scan for a maximum that keeps the first maximal entry: the
    running best is replaced only by a strictly greater weight. Positions
    for which [skip] holds are passed over. The scan is what [max(...)], the
    [k_best] loop of [_parse] and [Tensor.argmax] have in common. *)
Fixpoint scan_best `{Scalar W} (skip : nat -> bool) (k : nat) (row : list W)
    (best : option (nat * W)) : option (nat * W) :=
  match row with
  | [] => best
  | w :: row' =>
      scan_best skip (S k) row'
        (if skip k then best
         else match best with
              | None => Some (k, w)
              | Some (kb, wb) => if wltb wb w then Some (k, w) else best
              end)
  end.

(** [row.argmax()]: the index of the first maximal entry; an empty row
    raises. *)
Definition argmax `{Scalar W} (row : list W) : option nat :=
  fst <$> scan_best (fun _ => false) 0 row None.

(** [sorted(xs, key=...)] on already computed keys: a stable insertion sort,
    ascending. An element is moved past exactly the elements whose key is
    strictly smaller. *)
Fixpoint insert_by_key `{Scalar W} {A} (p : W * A) (l : list (W * A)) : list (W * A) :=
  match l with
  | [] => [p]
  | q :: l' => if wltb q.1 p.1 then q :: insert_by_key p l' else p :: q :: l'
  end.

Fixpoint sort_by_key `{Scalar W} {A} (l : list (W * A)) : list (W * A) :=
  match l with
  | [] => []
  | p :: l' => insert_by_key p (sort_by_key l')
  end.

Definition sorted `{Scalar W} {A} (xs : list A) (key : A -> option W) : option (list A) :=
  keys ← mapM key xs;
  Some ((sort_by_key (zip keys xs)).*2).

(** ** class MixedOp *)

Module MixedOp.
Record t := mk { _ops : list module }.

Section defs.
Context `{Registry}.

(** [OPS[name](C, stride, affine)]; a missing key is a [KeyError]. *)
Definition OPS (name : string) (C stride : Z) (affine : bool) : option module :=
  if decide (name ∈ OPS_keys) then Some (Op name C stride affine) else None.

(** [MixedOp.__init__(C, stride)] *)
Definition init (C stride : Z) : option t :=
  ops ← mapM (fun primitive =>
                op ← OPS primitive C stride false;
                Some (if contains "pool" primitive
                      then Sequential op (BatchNorm2d C false)
                      else op))
             PRIMITIVES;
  Some (mk ops).

Context `{Tensor W T}.

(** [MixedOp.forward(x, weights)] *)
Definition forward (m : t) (x : T) (weights : list W) : T :=
  py_sum (map (fun '(w, op) => tscale w (run op x)) (zip weights (_ops m))).

(** The same computation, also recording which candidate operations
    were applied, in call order. *)
Definition forward_traced (m : t) (x : T) (weights : list W) : T * list module :=
  fold_left (fun '(acc, called) '(w, op) => (tadd acc (tscale w (run op x)), called ++ [op]))
            (zip weights (_ops m)) (tzero, []).
End defs.
End MixedOp.

(** ** class Cell *)

Module Cell.
Record t := mk {
  reduction : bool;
  preprocess0 : module;
  preprocess1 : module;
  _steps : Z;
  _multiplier : Z;
  _ops : list MixedOp.t
}.

Section defs.
Context `{Registry}.

(** [stride = 2 if reduction and j < 2 else 1] *)
Definition edge_stride (reduction : bool) (j : nat) : Z :=
  if reduction && bool_decide (j < 2) then 2%Z else 1%Z.

(** [Cell.__init__] *)
Definition init (steps multiplier C_prev_prev C_prev C : Z)
    (reduction reduction_prev : bool) : option t :=
  let preprocess0 :=
    if reduction_prev then FactorizedReduce C_prev_prev C false
    else ReLUConvBN C_prev_prev C 1 1 0 false in
  let preprocess1 := ReLUConvBN C_prev C 1 1 0 false in
  ops ← for_each (fun ops i =>
            for_each (fun ops j =>
                        op ← MixedOp.init C (edge_stride reduction j);
                        Some (ops ++ [op]))
                     (seq 0 (2 + i)) ops)
          (seq 0 (Z.to_nat steps)) [];
  Some (mk reduction preprocess0 preprocess1 steps multiplier ops).

Context `{Tensor W T}.

(** The body of the loop over [i] in [Cell.forward]. *)
Definition forward_step (c : t) (weights : list (list W))
    (acc : list T * nat) (i : nat) : option (list T * nat) :=
  let '(states, offset) := acc in
  terms ← mapM (fun '(j, h) =>
                  op ← _ops c !! (offset + j);
                  w ← weights !! (offset + j);
                  Some (MixedOp.forward op h w))
               (imap pair states);
  Some (states ++ [py_sum terms], offset + length states).

(** [Cell.forward(s0, s1, weights)] *)
Definition forward (c : t) (s0 s1 : T) (weights : list (list W)) : option T :=
  let s0 := run (preprocess0 c) s0 in
  let s1 := run (preprocess1 c) s1 in
  '(states, _) ← for_each (forward_step c weights)
                          (seq 0 (Z.to_nat (_steps c))) ([s0; s1], 0);
  torch_cat (slice_from (- _multiplier c) states).
End defs.
End Cell.

(** ** Tensors held by reference *)

(** A two-dimensional tensor: its shape and its rows. *)
Record table (W : Type) := Table { shape : nat * nat; rows : list (list W) }.
Arguments Table {W} _ _.
Arguments shape {W} _.
Arguments rows {W} _.

(** What a computation did to the heap, in order. *)
Inductive event : Type :=
| Alloc (l : nat)
| Read (l : nat)
| Write (l : nat).

(** The interpreter state: the tensors that are alive (a reference is a
    position in [heap]), the position in the random stream and the record
    of heap accesses. *)
Record state (W : Type) := State {
  heap : list (table W);
  rng : nat;
  log : list event
}.
Arguments State {W} _ _ _.
Arguments heap {W} _.
Arguments rng {W} _.
Arguments log {W} _.

(** A computation returns a value or raises, and leaves a state behind
    either way. *)
Definition M (W A : Type) : Type := state W -> option A * state W.

Definition ret {W A} (a : A) : M W A := fun s => (Some a, s).

Definition bind {W A B} (m : M W A) (k : A -> M W B) : M W B :=
  fun s => match m s with
           | (Some a, s') => k a s'
           | (None, s') => (None, s')
           end.

Definition raise {W A} : M W A := fun s => (None, s).

Definition lift {W A} (o : option A) : M W A :=
  match o with Some a => ret a | None => raise end.

Declare Scope py_scope.
Delimit Scope py_scope with py.
Notation "'do' x <~ m ; k" := (bind m (fun x => k))
  (at level 10, x name, m at level 100, k at level 200) : py_scope.
Notation "'do' ' p <~ m ; k" := (bind m (fun x => match x with p => k end))
  (at level 10, p pattern, m at level 100, k at level 200) : py_scope.

Definition alloc {W} (t : table W) : M W nat :=
  fun s => let l := length (heap s) in
           (Some l, State (heap s ++ [t]) (rng s) (log s ++ [Alloc l])).

Definition read {W} (l : nat) : M W (table W) :=
  fun s => (heap s !! l, State (heap s) (rng s) (log s ++ [Read l])).

Definition write {W} (l : nat) (t : table W) : M W unit :=
  fun s => (Some tt, State (<[l := t]> (heap s)) (rng s) (log s ++ [Write l])).

(** [for x in xs: acc = body(acc, x)] for bodies that touch the heap. *)
Fixpoint for_eachM {W A S} (body : S -> A -> M W S) (xs : list A) (acc : S) : M W S :=
  match xs with
  | [] => ret acc
  | x :: xs' => (do acc' <~ body acc x ; for_eachM body xs' acc')%py
  end.

Section torch.
Context `{Scalar W}.

(** [1e-3 * torch.randn(k, n)], wrapped as a fresh tensor. *)
Definition randn_init (k n : nat) : M W nat :=
  fun s =>
    let t := Table (k, n)
               (map (fun r => map (fun c => w_init (noise (rng s + r * n + c))) (seq 0 n))
                    (seq 0 k)) in
    alloc t (State (heap s) (rng s + k * n) (log s)).

(** [torch.zeros_like(x)] *)
Definition zeros_like (x : nat) : M W nat :=
  (do t <~ read x ;
   alloc (Table (shape t) (replicate (shape t).1 (replicate (shape t).2 wzero))))%py.

(** One dimension of size [s] can be broadcast to size [d]. *)
Definition compatible (s d : nat) : bool := (s =? d) || (s =? 1).

Definition expand {A} (d : nat) (l : list A) : list A :=
  if length l =? d then l
  else match l with
       | x :: _ => replicate d x
       | [] => []
       end.

(** [x.data.copy_(y.data)]: the values of [y], broadcast to the shape of
    [x], overwrite the storage of [x]; incompatible shapes raise. *)
Definition copy_ (x y : nat) : M W unit :=
  (do src <~ read y ;
   do dst <~ read x ;
   if compatible (shape src).1 (shape dst).1 && compatible (shape src).2 (shape dst).2
   then write x (Table (shape dst)
                       (expand (shape dst).1 (map (expand (shape dst).2) (rows src))))
   else raise)%py.
End torch.

(** ** class InnerCell *)

Module InnerCell.
Record t := mk {
  reduction : bool;
  preprocess0 : module;
  preprocess1 : module;
  _steps : Z;
  _multiplier : Z;
  _ops : list module
}.

Section defs.
Context `{Registry} `{Scalar W}.

(** The body of the loop over [j] in [InnerCell.__init__]. *)
Definition init_edge (C : Z) (reduction : bool) (weights offset : nat)
    (ops : list module) (j : nat) : M W (list module) :=
  (let keys := OPS_keys in
   let stride := Cell.edge_stride reduction j in
   do data <~ read weights ;
   do weight <~ lift (rows data !! (offset + j)) ;
   do a <~ lift (argmax weight) ;
   do choice <~ lift (keys !! a) ;
   do op <~ lift (MixedOp.OPS choice C stride false) ;
   ret (ops ++ [if contains "pool" choice
                then Sequential op (BatchNorm2d C false)
                else op]))%py.

(** [InnerCell.__init__]; [weights] is a reference to a weight table. *)
Definition init (steps multiplier C_prev_prev C_prev C : Z)
    (reduction reduction_prev : bool) (weights : nat) : M W t :=
  (let preprocess0 :=
     if reduction_prev then FactorizedReduce C_prev_prev C false
     else ReLUConvBN C_prev_prev C 1 1 0 false in
   let preprocess1 := ReLUConvBN C_prev C 1 1 0 false in
   do '(ops, _) <~ for_eachM (fun '(ops, offset) i =>
                   do ops' <~ for_eachM (init_edge C reduction weights offset)
                                     (seq 0 (2 + i)) ops ;
                   ret (ops', offset + (i + 2)))
                 (seq 0 (Z.to_nat steps)) ([], 0) ;
   ret (mk reduction preprocess0 preprocess1 steps multiplier ops))%py.

Context `{Tensor W T}.

(** The body of the loop over [i] in [InnerCell.forward]. *)
Definition forward_step (c : t) (acc : list T * nat) (i : nat) : option (list T * nat) :=
  let '(states, offset) := acc in
  terms ← mapM (fun '(j, h) =>
                  op ← _ops c !! (offset + j);
                  Some (run op h))
               (imap pair states);
  Some (states ++ [py_sum terms], offset + length states).

(** [InnerCell.forward(s0, s1)] *)
Definition forward (c : t) (s0 s1 : T) : option T :=
  let s0 := run (preprocess0 c) s0 in
  let s1 := run (preprocess1 c) s1 in
  '(states, _) ← for_each (forward_step c) (seq 0 (Z.to_nat (_steps c))) ([s0; s1], 0);
  torch_cat (slice_from (- _multiplier c) states).
End defs.
End InnerCell.

(** ** Stacking cells *)

(** The loop over [i in range(layers)] that [ModelForModelSizeMeasure],
    [Network] and [EMNIST] each spell out: it threads the channel counts and
    the [reduction_prev] flag, and returns the cells with the final
    [C_prev]. [make_cell C_prev_prev C_prev C_curr reduction reduction_prev]
    is the cell constructor call of the respective class. *)
Definition stack_cells {W cell} (layers multiplier C_curr0 C : Z)
    (make_cell : Z -> Z -> Z -> bool -> bool -> M W cell) : M W (list cell * Z) :=
  (do '(cells, C_prev_prev, C_prev, C_curr, reduction_prev) <~
      for_eachM (fun '(cells, C_prev_prev, C_prev, C_curr, reduction_prev) i =>
          let is_reduction :=
            bool_decide (Z.of_nat i = layers / 3 \/ Z.of_nat i = 2 * layers / 3)%Z in
          let C_curr := if is_reduction then (C_curr * 2)%Z else C_curr in
          let reduction := is_reduction in
          do cell <~ make_cell C_prev_prev C_prev C_curr reduction reduction_prev ;
          ret (cells ++ [cell], C_prev, (multiplier * C_curr)%Z, C_curr, reduction))
        (seq 0 (Z.to_nat layers)) ([], C_curr0, C_curr0, C, false) ;
   ret (cells, C_prev))%py.

(** ** class ModelForModelSizeMeasure *)

Module ModelForModelSizeMeasure.
Record t := mk {
  _C : Z;
  _num_classes : Z;
  _layers : Z;
  _criterion : string;
  _steps : Z;
  _multiplier : Z;
  stem : module;
  cells : list InnerCell.t;
  global_pooling : module;
  classifier : module
}.

Section defs.
Context `{Registry} `{Scalar W}.

(** [ModelForModelSizeMeasure.__init__] *)
Definition init (C num_classes layers : Z) (criterion : string)
    (alphas_normal alphas_reduce : nat) (steps multiplier stem_multiplier : Z) : M W t :=
  (let C_curr := (stem_multiplier * C)%Z in
   let stem := Sequential (Conv2d 3 C_curr 3 1 false) (BatchNorm2d C_curr true) in
   do '(cells, C_prev) <~
      stack_cells layers multiplier C_curr C
        (fun C_prev_prev C_prev C_curr reduction reduction_prev =>
           if reduction
           then InnerCell.init steps multiplier C_prev_prev C_prev C_curr
                               reduction reduction_prev alphas_reduce
           else InnerCell.init steps multiplier C_prev_prev C_prev C_curr
                               reduction reduction_prev alphas_normal) ;
   ret (mk C num_classes layers criterion steps multiplier stem cells
           (AdaptiveAvgPool2d 1) (Linear C_prev num_classes)))%py.

Context `{Tensor W T}.

(** [ModelForModelSizeMeasure.forward(input_data)]; both branches on
    [cell.reduction] are the same statement. [view] stands for
    [out.view(out.size(0), -1)]. *)
Definition forward (view : T -> T) (self : t) (input_data : T) : option T :=
  let s := run (stem self) input_data in
  '(s0, s1) ← for_each (fun '(s0, s1) cell =>
                          if InnerCell.reduction cell
                          then out ← InnerCell.forward cell s0 s1; Some (s1, out)
                          else out ← InnerCell.forward cell s0 s1; Some (s1, out))
                       (cells self) (s, s);
  let out := run (global_pooling self) s1 in
  Some (run (classifier self) (view out)).
End defs.
End ModelForModelSizeMeasure.

(** ** Genotypes *)

(** A Python [range(start, stop)] object. *)
Record py_range := Range { start : Z; stop : Z }.

(** The integers a [range] iterates over. *)
Definition range_list (r : py_range) : list Z := seqZ (start r) (stop r - start r).

(** The [Genotype] named tuple of [darts.genotypes], with the four fields
    that [genotype] fills by keyword. *)
Record Genotype := mkGenotype {
  normal : list (string * nat);
  normal_concat : py_range;
  reduce : list (string * nat);
  reduce_concat : py_range
}.

(** ** class Network *)

Module Network.
Record t := mk {
  _C : Z;
  _num_classes : Z;
  _layers : Z;
  _criterion : string;
  _steps : Z;
  _multiplier : Z;
  _stem_multiplier : Z;
  device : string;
  stem : module;
  cells : list Cell.t;
  global_pooling : module;
  classifier : module;
  alphas_normal : nat;
  alphas_reduce : nat;
  history_normal : nat;
  history_reduce : nat
}.

Section defs.
Context `{Registry} `{Scalar W}.

(** [k = sum(1 for i in range(self._steps) for n in range(2 + i))] *)
Definition num_edges (steps : Z) : nat :=
  sum_list (flat_map (fun i => map (fun n => 1) (seq 0 (2 + i))) (seq 0 (Z.to_nat steps))).

(** [Network._initialize_alphas]: the references stored in
    [alphas_normal], [alphas_reduce], [history_normal] and
    [history_reduce]. *)
Definition _initialize_alphas (steps : Z) : M W (nat * nat * nat * nat) :=
  (let k := num_edges steps in
   let num_ops := length PRIMITIVES in
   do alphas_normal <~ randn_init k num_ops ;
   do alphas_reduce <~ randn_init k num_ops ;
   do history_normal <~ zeros_like alphas_normal ;
   do history_reduce <~ zeros_like alphas_reduce ;
   ret (alphas_normal, alphas_reduce, history_normal, history_reduce))%py.

(** [Network.__init__]; [steps], [multiplier] and [stem_multiplier]
    default to 4, 4 and 3 at the call sites that omit them. *)
Definition init (C num_classes layers : Z) (criterion device : string)
    (steps multiplier stem_multiplier : Z) : M W t :=
  (let C_curr := (stem_multiplier * C)%Z in
   let stem := Sequential (Conv2d 3 C_curr 3 1 false) (BatchNorm2d C_curr true) in
   do '(cells, C_prev) <~
      stack_cells layers multiplier C_curr C
        (fun C_prev_prev C_prev C_curr reduction reduction_prev =>
           lift (Cell.init steps multiplier C_prev_prev C_prev C_curr
                           reduction reduction_prev)) ;
   do '(an, ar, hn, hr) <~ _initialize_alphas steps ;
   ret (mk C num_classes layers criterion steps multiplier stem_multiplier device
           stem cells (AdaptiveAvgPool2d 1) (Linear C_prev num_classes)
           an ar hn hr))%py.

(** [Network.arch_parameters] *)
Definition arch_parameters (self : t) : list nat :=
  [alphas_normal self; alphas_reduce self].

(** [Network.new]; [.to(self.device)] returns the module it is called
    on. *)
Definition new (self : t) : M W t :=
  (do model_new <~ init (_C self) (_num_classes self) (_layers self)
                        (_criterion self) (device self) 4 4 3 ;
   do _ <~ for_eachM (fun (_ : unit) '(x, y) => copy_ x y)
                     (zip (arch_parameters model_new) (arch_parameters self)) tt ;
   ret model_new)%py.

(** [_isCNNStructure] *)
Definition _isCNNStructure (k_best : nat) : bool := bool_decide (4 <= k_best).

(** The sort key of [_parse]:
    [-max(W[x][k] for k in range(len(W[x])) if k != PRIMITIVES.index("none"))].
    On an empty row the guard is never reached, and [max] raises on the
    empty sequence. *)
Definition edge_key (Wn : list (list W)) (x : nat) : option W :=
  row ← Wn !! x;
  ni ← py_index "none" PRIMITIVES;
  m ← scan_best (fun k => bool_decide (k = ni)) 0 row None;
  Some (wopp m.2).

(** The body of [for j in edges] in [_parse]. *)
Definition parse_edge (Wn : list (list W))
    (acc : list (string * nat) * nat) (j : nat) : option (list (string * nat) * nat) :=
  let '(gene, cnn_structure_count) := acc in
  row ← Wn !! j;
  ni ← py_index "none" PRIMITIVES;
  best ← scan_best (fun k => bool_decide (k = ni)) 0 row None;
  let k_best := best.1 in
  let cnn_structure_count :=
    if _isCNNStructure k_best then cnn_structure_count + 1 else cnn_structure_count in
  name ← PRIMITIVES !! k_best;
  Some (gene ++ [(name, j)], cnn_structure_count).

(** The body of [for i in range(self._steps)] in [_parse]. *)
Definition parse_node (weights : list (list W))
    (acc : list (string * nat) * nat * nat * nat) (i : nat)
    : option (list (string * nat) * nat * nat * nat) :=
  let '(gene, n, start, cnn_structure_count) := acc in
  let end_ := start + n in
  let Wn := take (end_ - start) (drop start weights) in
  ranked ← sorted (seq 0 (i + 2)) (edge_key Wn);
  let edges := take 2 ranked in
  '(gene, cnn_structure_count) ← for_each (parse_edge Wn) edges (gene, cnn_structure_count);
  Some (gene, n + 1, end_, cnn_structure_count).

(** [_parse(weights)] inside [Network.genotype] *)
Definition _parse (steps : Z) (weights : list (list W))
    : option (list (string * nat) * nat) :=
  '(gene, _, _, cnn_structure_count) ←
     for_each (parse_node weights) (seq 0 (Z.to_nat steps)) ([], 2, 0, 0);
  Some (gene, cnn_structure_count).

(** [Network.genotype] *)
Definition genotype (self : t) : M W (Genotype * nat * nat) :=
  (do tn <~ read (alphas_normal self) ;
   do '(gene_normal, cnn_structure_count_normal) <~
      lift (_parse (_steps self) (map softmax (rows tn))) ;
   do tr <~ read (alphas_reduce self) ;
   do '(gene_reduce, cnn_structure_count_reduce) <~
      lift (_parse (_steps self) (map softmax (rows tr))) ;
   let concat := Range (2 + _steps self - _multiplier self) (_steps self + 2) in
   ret (mkGenotype gene_normal concat gene_reduce concat,
        cnn_structure_count_normal, cnn_structure_count_reduce))%py.

(** [Network.get_current_model_size]; [count_parameters_in_MB] comes
    from [darts.utils] and only inspects the model it is given. *)
Definition get_current_model_size {R}
    (count_parameters_in_MB : ModelForModelSizeMeasure.t -> R) (self : t) : M W R :=
  (do model <~ ModelForModelSizeMeasure.init
                 (_C self) (_num_classes self) (_layers self) (_criterion self)
                 (alphas_normal self) (alphas_reduce self)
                 (_steps self) (_multiplier self) (_stem_multiplier self) ;
   let size := count_parameters_in_MB model in
   ret size)%py.


Context `{Tensor W T}.

(** The body of the loop over the cells in [Network.forward]. The softmax
    of a table is a new tensor that only the cell sees. *)
Definition forward_cell (self : t) (acc : T * T) (cell : Cell.t) : M W (T * T) :=
  (let '(s0, s1) := acc in
   do alphas <~ read (if Cell.reduction cell then alphas_reduce self
                      else alphas_normal self) ;
   let weights := map softmax (rows alphas) in
   do out <~ lift (Cell.forward cell s0 s1 weights) ;
   ret (s1, out))%py.

(** [Network.forward(input)]; [view] stands for
    [out.view(out.size(0), -1)]. *)
Definition forward (view : T -> T) (self : t) (input : T) : M W T :=
  (let s := run (stem self) input in
   do '(s0, s1) <~ for_eachM (forward_cell self) (cells self) (s, s) ;
   let out := run (global_pooling self) s1 in
   let logits := run (classifier self) (view out) in
   ret logits)%py.
End defs.
End Network.

(** ** class EMNIST *)

(** [EMNIST] repeats [Network] with a one-channel stem. Its [forward],
    [genotype] and [get_current_model_size] are the same text as in
    [Network]; what differs is kept here. *)
Module EMNIST.
Record t := mk {
  _C : Z;
  _num_classes : Z;
  _layers : Z;
  _criterion : string;
  _steps : Z;
  _multiplier : Z;
  _stem_multiplier : Z;
  device : string;
  stem : module;
  cells : list Cell.t;
  global_pooling : module;
  classifier : module;
  alphas_normal : nat;
  alphas_reduce : nat;
  history_normal : nat;
  history_reduce : nat
}.

Section defs.
Context `{Registry} `{Scalar W}.

(** [EMNIST.__init__] *)
Definition init (C num_classes layers : Z) (criterion device : string)
    (steps multiplier stem_multiplier : Z) : M W t :=
  (let C_curr := (stem_multiplier * C)%Z in
   let stem := Sequential (Conv2d 1 C_curr 3 1 false) (BatchNorm2d C_curr true) in
   do '(cells, C_prev) <~
      stack_cells layers multiplier C_curr C
        (fun C_prev_prev C_prev C_curr reduction reduction_prev =>
           lift (Cell.init steps multiplier C_prev_prev C_prev C_curr
                           reduction reduction_prev)) ;
   do '(an, ar, hn, hr) <~ Network._initialize_alphas steps ;
   ret (mk C num_classes layers criterion steps multiplier stem_multiplier device
           stem cells (AdaptiveAvgPool2d 1) (Linear C_prev num_classes)
           an ar hn hr))%py.

(** [EMNIST.arch_parameters] *)
Definition arch_parameters (self : t) : list nat :=
  [alphas_normal self; alphas_reduce self].

(** [EMNIST.new]: the clone is built by the [Network] constructor. *)
Definition new (self : t) : M W Network.t :=
  (do model_new <~ Network.init (_C self) (_num_classes self) (_layers self)
                                (_criterion self) (device self) 4 4 3 ;
   do _ <~ for_eachM (fun (_ : unit) '(x, y) => copy_ x y)
                     (zip (Network.arch_parameters model_new) (arch_parameters self)) tt ;
   ret model_new)%py.
End defs.
End EMNIST.

(** ** Reference notions used in the statements *)

(** The number of weight rows owned by the nodes before node [i]: node [i']
    owns [i' + 2] rows. *)
Definition edges_before (i : nat) : nat := sum_list (map (fun i' => i' + 2) (seq 0 i)).

(** The sum of [term 0], ..., [term (n - 1)], added in index order starting
    from [0]. *)
Fixpoint sum_upto `{Tensor W T} (term : nat -> T) (n : nat) : T :=
  match n with
  | 0 => tzero
  | S m => tadd (sum_upto term m) (term m)
  end.

(** The weight vector of length [n] that is one at position [k] and zero
    elsewhere. *)
Definition one_hot `{Scalar W} (n k : nat) : list W :=
  map (fun i => if decide (i = k) then wone else wzero) (seq 0 n).

(** The algebra the one-hot property needs from the tensor engine. *)
Class TensorLaws (W T : Type) `{Scalar W} `{Tensor W T} : Prop := {
  tadd_zero_l : forall t : T, tadd tzero t = t;
  tadd_scale_zero : forall a t : T, tadd a (tscale wzero t) = a;
  tscale_one : forall t : T, tscale wone t = t
}.

(** The stride an operation was constructed with, seen through the
    normalisation that follows pooling. *)
Definition op_stride (m : module) : option Z :=
  match m with
  | Op _ _ stride _ => Some stride
  | Sequential (Op _ _ stride _) _ => Some stride
  | _ => None
  end.

(** The name an operation was constructed from. *)
Definition op_name (m : module) : option string :=
  match m with
  | Op name _ _ _ => Some name
  | Sequential (Op name _ _ _) _ => Some name
  | _ => None
  end.

(** [k] is the first position of [l] that holds [x]. *)
Definition first_position {A} (x : A) (l : list A) (k : nat) : Prop :=
  l !! k = Some x /\ forall j, j < k -> l !! j <> Some x.

(** [w] is the greatest weight of [row] and [a] the first position holding
    a weight that great, among the positions other than [excl]. *)
Definition first_max `{Scalar W} (excl : option nat) (row : list W) (a : nat) (w : W) : Prop :=
  row !! a = Some w /\ Some a <> excl /\
  (forall k w', row !! k = Some w' -> Some k <> excl -> wleb w' w = true) /\
  (forall k w', k < a -> row !! k = Some w' -> Some k <> excl -> wltb w' w = true).

(** In the ranking of source edges, edge [a] of strength [sa] comes before
    edge [x] of strength [sx]: it is strictly stronger, or as strong and
    earlier. *)
Definition ranks_before `{Scalar W} (a : nat) (sa : W) (x : nat) (sx : W) : Prop :=
  wltb sx sa = true \/ (wleb sx sa = true /\ a < x).

Section scalar_notions.
Context `{Scalar W}.

(** What the running best of a scan knows about the prefix seen so far. *)
Definition scan_inv (skip : nat -> bool) (seen : list W) (best : option (nat * W)) : Prop :=
  match best with
  | None => forall k, k < length seen -> skip k = true
  | Some (kb, wb) =>
      seen !! kb = Some wb /\ skip kb = false /\
      (forall k w, seen !! k = Some w -> skip k = false -> wleb w wb = true) /\
      (forall k w, k < kb -> seen !! k = Some w -> skip k = false -> wltb w wb = true)
  end.

(** The order a stable ascending sort puts keyed positions in: by key, and
    by original position among equal keys. *)
Definition pair_before (p q : W * nat) : Prop :=
  wltb p.1 q.1 = true \/ (wleb p.1 q.1 = true /\ p.2 < q.2).

(** On the edge from source [x] into node [i], [s] is the greatest weight
    among the operations other than the one at [ni], and [k] is the first
    operation index holding it. *)
Definition edge_choice (ni : nat) (weights : list (list W)) (i x k : nat) (s : W) : Prop :=
  exists row, weights !! (edges_before i + x) = Some row /\ first_max (Some ni) row k s.
End scalar_notions.

Section registry_notions.
Context `{Registry} `{Scalar W}.

(** What [gene] records for node [i]: two different source edges [a] and
    [b], each with the name of its best operation; [a] ranks before [b] and
    [b] ranks before every other source edge of the node. *)
Definition node_selection (ni : nat) (weights : list (list W))
    (gene : list (string * nat)) (i : nat) : Prop :=
  exists a b ka kb sa sb opa opb,
    gene !! (2 * i) = Some (opa, a) /\ gene !! (2 * i + 1) = Some (opb, b) /\
    a < i + 2 /\ b < i + 2 /\ a <> b /\
    edge_choice ni weights i a ka sa /\ edge_choice ni weights i b kb sb /\
    PRIMITIVES !! ka = Some opa /\ PRIMITIVES !! kb = Some opb /\
    ranks_before a sa b sb /\
    forall x, x < i + 2 -> x <> a -> x <> b ->
      exists kx sx, edge_choice ni weights i x kx sx /\ ranks_before b sb x sx.

(** [list(OPS.keys())[row.argmax()]] *)
Definition chosen_name (row : list W) : option string :=
  a ← argmax row; OPS_keys !! a.

(** The single operation [InnerCell] puts on the edge from source [j], for
    the weight row [row]. *)
Definition edge_operation (C : Z) (reduction : bool) (row : list W) (j : nat) (op : module)
    : Prop :=
  exists name,
    chosen_name row = Some name /\
    op = (if contains "pool" name
          then Sequential (Op name C (Cell.edge_stride reduction j) false)
                          (BatchNorm2d C false)
          else Op name C (Cell.edge_stride reduction j) false).

(** Every row can be resolved to a key of [OPS]. *)
Definition rows_resolvable (data : table W) : Prop :=
  Forall (fun row => row <> [] /\ length row <= length OPS_keys) (rows data).

(** The operations of a constructed inner cell, edge by edge. *)
Definition inner_ops (data : table W) (C : Z) (reduction : bool) (n : nat)
    (ops : list module) : Prop :=
  length ops = edges_before n /\
  forall i j, i < n -> j < i + 2 ->
    exists row op,
      rows data !! (edges_before i + j) = Some row /\
      ops !! (edges_before i + j) = Some op /\
      edge_operation C reduction row j op.

End registry_notions.

Section tensor_notions.
Context `{Tensor W T}.


(** The same for an inner cell, whose edges hold one operation each and
    take no weights. *)
Definition inner_node_state (c : InnerCell.t) (states : list T) (i : nat) : Prop :=
  exists term : nat -> T,
    states !! (i + 2) = Some (sum_upto term (i + 2)) /\
    forall j, j < i + 2 ->
      exists op h,
        InnerCell._ops c !! (edges_before i + j) = Some op /\
        states !! j = Some h /\
        term j = run op h.
End tensor_notions.

Section heap_notions.
Context {W : Type}.

(** The event is a read of one of the references in [L]. *)
Definition reads (L : list nat) (e : event) : Prop := exists l, e = Read l /\ l ∈ L.

(** Started on heap [h], [m] leaves the heap and the random stream as they
    are, only reads references in [L], and its outcome satisfies [Q]. *)
Definition ro {A} (L : list nat) (h : list (table W)) (m : M W A) (Q : option A -> Prop)
    : Prop :=
  forall s, heap s = h ->
    exists o evs, m s = (o, State h (rng s) (log s ++ evs)) /\ Forall (reads L) evs /\ Q o.

(** The outcome of a loop: the invariant after [n] rounds, or [fail] when a
    round raised. *)
Definition loop_post {St} (fail : Prop) (I : St -> Prop) (o : option St) : Prop :=
  match o with Some acc => I acc | None => fail end.

(** No condition on the outcome. *)
Definition any {A} (o : option A) : Prop := True.

(** A table as [randn_init] and [zeros_like] produce them: [k] rows of [n]
    entries. *)
Definition well_shaped (k n : nat) (t : table W) : Prop :=
  shape t = (k, n) /\ length (rows t) = k /\ Forall (fun row => length row = n) (rows t).

End heap_notions.


(** ** Notions for the layout of a network *)

(** [i in [layers // 3, 2 * layers // 3]]: layer [i] holds a reduction
    cell. *)
Definition is_reduction_layer (layers : Z) (i : nat) : bool :=
  bool_decide (Z.of_nat i = layers / 3 \/ Z.of_nat i = 2 * layers / 3)%Z.

(** The channel width [C_curr] once [n] layers are built, starting from
    [C]: it doubles at every reduction layer. *)
Fixpoint width_after (layers C : Z) (n : nat) : Z :=
  match n with
  | 0 => C
  | S k => if is_reduction_layer layers k
           then (width_after layers C k * 2)%Z
           else width_after layers C k
  end.

(** The width [C_prev] of the state that layer [n] receives from the layer
    before it: the stem width for the first layer, then [multiplier] times
    the width of the previous cell. *)
Definition input_width (layers multiplier C_stem C : Z) (n : nat) : Z :=
  match n with
  | 0 => C_stem
  | S _ => (multiplier * width_after layers C n)%Z
  end.

(** Whether the layer before layer [n] holds a reduction cell. *)
Definition reduction_before (layers : Z) (n : nat) : bool :=
  match n with
  | 0 => false
  | S k => is_reduction_layer layers k
  end.

(** The gene entry names a primitive whose index is 4 or more. *)
Definition cnn_entry `{Registry} (entry : string * nat) : bool :=
  match py_index entry.1 PRIMITIVES with
  | Some k => bool_decide (4 <= k)
  | None => false
  end.

(** ** Integer stand-ins for the numeric engine, and a small registry *)

#[export] Instance Z_scalar : Scalar Z := {|
  wleb := Z.leb;
  wopp := Z.opp;
  wzero := 0%Z;
  wone := 1%Z;
  w_init := fun a => a;
  softmax := fun r => r;
  noise := fun n => Z.of_nat ((n * n + n) mod 7)
|}.

#[export] Instance Z_tensor : Tensor Z Z := {|
  tzero := 0%Z;
  tadd := Z.add;
  tscale := Z.mul;
  cat := fun ts => foldr (fun t acc => (t + 1000 * acc)%Z) 0%Z ts;
  run := fun m x =>
           match op_name m with
           | Some "none" => 0%Z
           | Some "skip_connect" => x
           | Some _ => (2 * x + 1)%Z
           | None => (x + 1)%Z
           end
|}.

Definition small_registry : Registry := {|
  PRIMITIVES := ["none"; "max_pool_3x3"; "skip_connect"; "sep_conv_3x3"];
  OPS_keys := ["none"; "max_pool_3x3"; "skip_connect"; "sep_conv_3x3"; "conv_7x1_1x7"]
|}.

(** A registry whose dictionary enumerates the two pooling operations in the
    other order. *)
Definition swapped_registry : Registry := {|
  PRIMITIVES := ["none"; "max_pool_3x3"; "avg_pool_3x3"; "skip_connect"];
  OPS_keys := ["none"; "avg_pool_3x3"; "max_pool_3x3"; "skip_connect"]
|}.

Definition empty_state : state Z := State [] 0 [].

(** A three-layer, two-step network over the small registry, built from the
    empty state, and the state its construction leaves. *)
Definition small_network_run : Network.t * state Z :=
  Eval vm_compute in
    match @Network.init small_registry Z Z_scalar 16 10 3 "criterion" "cpu" 2 2 3 empty_state
    with
    | (Some net, s) => (net, s)
    | (None, s) =>
        (Network.mk 0 0 0 "" 0 0 0 "" (Linear 0 0) [] (Linear 0 0) (Linear 0 0) 0 0 0 0, s)
    end.

(** A four-step network whose cells concatenate their last two states
    ([multiplier = 2]), over the small registry. *)
Definition narrow_network_run : Network.t * state Z :=
  Eval vm_compute in
    match @Network.init small_registry Z Z_scalar 16 10 3 "criterion" "cpu" 4 2 3 empty_state
    with
    | (Some net, s) => (net, s)
    | (None, s) =>
        (Network.mk 0 0 0 "" 0 0 0 "" (Linear 0 0) [] (Linear 0 0) (Linear 0 0) 0 0 0 0, s)
    end.

(** A three-step network over the small registry. *)
Definition short_network_run : Network.t * state Z :=
  Eval vm_compute in
    match @Network.init small_registry Z Z_scalar 16 10 3 "criterion" "cpu" 3 4 3 empty_state
    with
    | (Some net, s) => (net, s)
    | (None, s) =>
        (Network.mk 0 0 0 "" 0 0 0 "" (Linear 0 0) [] (Linear 0 0) (Linear 0 0) 0 0 0 0, s)
    end.

(** An [EMNIST] network with [multiplier = 2] over the small registry. *)
Definition narrow_emnist_run : EMNIST.t * state Z :=
  Eval vm_compute in
    match @EMNIST.init small_registry Z Z_scalar 16 10 3 "criterion" "cpu" 4 2 3 empty_state
    with
    | (Some net, s) => (net, s)
    | (None, s) =>
        (EMNIST.mk 0 0 0 "" 0 0 0 "" (Linear 0 0) [] (Linear 0 0) (Linear 0 0) 0 0 0 0, s)
    end.

(** A weight table for two steps over the small registry: in node 1 the
    edges from sources 0 and 2 are equally strong. *)
Definition example_weights : list (list Z) :=
  [[9; 1; 2; 3]; [0; 5; 2; 1]; [0; 4; 4; 1]; [0; 1; 7; 2]; [8; 4; 0; 0]]%Z.

(** * Properties *)

#[export] Instance Z_scalar_order : ScalarOrder Z.
Proof.
  split; simpl; intros.
  - destruct (Z.leb_spec a b); [by left | right; apply Z.leb_le; lia].
  - apply Z.leb_le. apply Z.leb_le in H, H0. lia.
  - apply eq_true_iff_eq. rewrite !Z.leb_le. lia.
  - done.
  - done.
Qed.

#[export] Instance Z_tensor_laws : TensorLaws Z Z.
Proof. split; simpl; intros; lia. Qed.

(** ** The order on scalars *)

Section order.
Context `{ScalarOrder W}.

Lemma wleb_refl (a : W) : wleb a a = true.
Proof. by destruct (wleb_total a a). Qed.

Lemma wltb_wleb (a b : W) : wltb a b = true -> wleb a b = true.
Proof.
  unfold wltb. intros Hlt. destruct (wleb_total a b) as [|Hba]; [done|].
  by rewrite Hba in Hlt.
Qed.

Lemma wltb_false (a b : W) : wltb a b = false -> wleb b a = true.
Proof. unfold wltb. by destruct (wleb b a). Qed.

Lemma wleb_wltb_trans (a b c : W) :
  wleb a b = true -> wltb b c = true -> wltb a c = true.
Proof.
  unfold wltb. intros Hab Hbc. destruct (wleb c a) eqn:Hca; [|done].
  by rewrite (wleb_trans c a b Hca Hab) in Hbc.
Qed.

Lemma wltb_wleb_trans (a b c : W) :
  wltb a b = true -> wleb b c = true -> wltb a c = true.
Proof.
  unfold wltb. intros Hab Hbc. destruct (wleb c a) eqn:Hca; [|done].
  by rewrite (wleb_trans b c a Hbc Hca) in Hab.
Qed.

Lemma wltb_opp (a b : W) : wltb (wopp a) (wopp b) = wltb b a.
Proof. unfold wltb. by rewrite wopp_anti. Qed.
End order.

(** ** The linear scan *)

Section scan.
Context `{ScalarOrder W}.

Lemma scan_inv_step skip seen best w :
  scan_inv skip seen best ->
  scan_inv skip (seen ++ [w])
    (if skip (length seen) then best
     else match best with
          | None => Some (length seen, w)
          | Some (kb, wb) => if wltb wb w then Some (length seen, w) else best
          end).
Proof.
  intros Hinv. destruct (skip (length seen)) eqn:Hskip.
  - destruct best as [[kb wb]|]; simpl in *.
    + destruct Hinv as (Hkb & Hs & Hmax & Hfirst).
      split_and!; [by apply lookup_app_l_Some|done|..].
      * intros k w' Hk Hk'. apply lookup_snoc_Some in Hk as [[_ Hk]|[-> _]]; [eauto|congruence].
      * intros k w' Hlt Hk Hk'.
        apply lookup_snoc_Some in Hk as [[_ Hk]|[-> _]]; [eauto|congruence].
    + intros k Hk. rewrite length_app in Hk. simpl in Hk.
      destruct (decide (k = length seen)) as [->|]; [done|]. apply Hinv. lia.
  - destruct best as [[kb wb]|]; simpl in *.
    + destruct Hinv as (Hkb & Hs & Hmax & Hfirst).
      destruct (wltb wb w) eqn:Hlt; simpl.
      * split_and!; [by apply list_lookup_middle|done|..].
        -- intros k w' Hk Hk'. apply lookup_snoc_Some in Hk as [[_ Hk]|[_ <-]].
           ++ eapply wleb_trans; [by eapply Hmax|by apply wltb_wleb].
           ++ apply wleb_refl.
        -- intros k w' Hk1 Hk Hk'. apply lookup_snoc_Some in Hk as [[_ Hk]|[-> _]]; [|lia].
           eapply wleb_wltb_trans; [by eapply Hmax|done].
      * split_and!; [by apply lookup_app_l_Some|done|..].
        -- intros k w' Hk Hk'. apply lookup_snoc_Some in Hk as [[_ Hk]|[_ <-]]; [eauto|].
           by apply wltb_false.
        -- intros k w' Hk1 Hk Hk'. apply lookup_snoc_Some in Hk as [[_ Hk]|[-> _]]; [eauto|].
           apply lookup_lt_Some in Hkb. lia.
    + split_and!; [by apply list_lookup_middle|done|..].
      * intros k w' Hk Hk'. apply lookup_snoc_Some in Hk as [[Hk _]|[_ <-]].
        -- apply Hinv in Hk. congruence.
        -- apply wleb_refl.
      * intros k w' Hk1 Hk Hk'. apply Hinv in Hk1. congruence.
Qed.

Lemma scan_best_inv skip row : forall seen best,
  scan_inv skip seen best ->
  scan_inv skip (seen ++ row) (scan_best skip (length seen) row best).
Proof.
  induction row as [|w row IH]; intros seen best Hinv; simpl.
  - by rewrite app_nil_r.
  - rewrite (cons_middle w seen row), app_assoc.
    replace (S (length seen)) with (length (seen ++ [w])) by (rewrite length_app; simpl; lia).
    apply IH. by apply scan_inv_step.
Qed.

Lemma scan_best_first_max ni row a w :
  scan_best (fun k => bool_decide (k = ni)) 0 row None = Some (a, w) ->
  first_max (Some ni) row a w.
Proof.
  intros Hscan.
  pose proof (scan_best_inv (fun k => bool_decide (k = ni)) row [] None) as Hinv.
  simpl in Hinv. rewrite Hscan in Hinv.
  destruct Hinv as (Ha & Hs & Hmax & Hfirst); [intros k Hk; simpl in Hk; lia|].
  apply bool_decide_eq_false in Hs.
  split_and!; [done|congruence|..].
  - intros k w' Hk Hne. eapply Hmax; [done|]. apply bool_decide_eq_false. congruence.
  - intros k w' Hlt Hk Hne. eapply Hfirst; [done..|]. apply bool_decide_eq_false. congruence.
Qed.

Lemma scan_best_is_Some ni row k :
  k < length row -> k <> ni ->
  is_Some (scan_best (fun k => bool_decide (k = ni)) 0 row None).
Proof.
  intros Hk Hne.
  pose proof (scan_best_inv (fun k => bool_decide (k = ni)) row [] None) as Hinv.
  simpl in Hinv.
  destruct (scan_best _ 0 row None) as [best|]; [by eexists|].
  simpl in Hinv. specialize (Hinv ltac:(intros k' Hk'; simpl in Hk'; lia) k Hk).
  by apply bool_decide_eq_true in Hinv.
Qed.


Lemma argmax_is_Some row : row <> [] -> exists a, argmax row = Some a /\ a < length row.
Proof.
  intros Hrow. unfold argmax.
  pose proof (scan_best_inv (fun _ => false) row [] None) as Hinv. simpl in Hinv.
  destruct (scan_best _ 0 row None) as [[a w]|].
  - exists a. split; [done|].
    destruct Hinv as (Ha & _); [intros k Hk; simpl in Hk; lia|].
    by apply lookup_lt_Some in Ha.
  - simpl in Hinv. destruct row; [done|].
    specialize (Hinv ltac:(intros k' Hk'; simpl in Hk'; lia) 0 ltac:(simpl; lia)). done.
Qed.
End scan.

(** ** MixedOp *)

Section mixed_op.
Context `{Registry} `{Scalar W} `{Tensor W T}.

Lemma sum_upto_ext (f g : nat -> T) n :
  (forall k, k < n -> f k = g k) -> sum_upto f n = sum_upto g n.
Proof.
  induction n as [|n IH]; intros Hfg; simpl; [done|].
  rewrite IH, Hfg by (intros; try apply Hfg; lia). done.
Qed.

Lemma py_sum_sum_upto (ts : list T) :
  py_sum ts = sum_upto (fun k => default tzero (ts !! k)) (length ts).
Proof.
  unfold py_sum. induction ts as [|t ts IH] using rev_ind; [done|].
  rewrite fold_left_app, length_app, Nat.add_1_r. simpl.
  rewrite IH, list_lookup_middle by done. simpl. f_equal.
  apply sum_upto_ext. intros k Hk. by rewrite lookup_app_l.
Qed.

Lemma MixedOp_init_length C stride m :
  MixedOp.init C stride = Some m -> length (MixedOp._ops m) = length PRIMITIVES.
Proof.
  unfold MixedOp.init. intros Hinit.
  destruct (mapM _ PRIMITIVES) as [ops|] eqn:Hops; simplify_eq/=.
  symmetry. by eapply length_mapM.
Qed.

Lemma MixedOp_init_lookup C stride m k op :
  MixedOp.init C stride = Some m -> MixedOp._ops m !! k = Some op ->
  exists name, PRIMITIVES !! k = Some name /\ name ∈ OPS_keys /\
    op = (if contains "pool" name
          then Sequential (Op name C stride false) (BatchNorm2d C false)
          else Op name C stride false).
Proof.
  unfold MixedOp.init. intros Hinit Hk.
  destruct (mapM _ PRIMITIVES) as [ops|] eqn:Hops; simplify_eq/=.
  apply mapM_Some in Hops.
  destruct (Forall2_lookup_r _ _ _ _ _ Hops Hk) as (name & Hname & Hop).
  exists name. split; [done|]. unfold MixedOp.OPS in Hop.
  destruct (decide (name ∈ OPS_keys)); simplify_eq/=. done.
Qed.

Lemma MixedOp_init_is_Some C stride :
  (forall p, p ∈ PRIMITIVES -> p ∈ OPS_keys) -> is_Some (MixedOp.init C stride).
Proof.
  intros Hkeys. unfold MixedOp.init.
  destruct (mapM _ PRIMITIVES) as [ops|] eqn:Hops; [by eexists|].
  assert (is_Some (mapM (fun primitive =>
    op ← MixedOp.OPS primitive C stride false;
    Some (if contains "pool" primitive then Sequential op (BatchNorm2d C false) else op))
    PRIMITIVES)) as [? Hs]; [|congruence].
  apply mapM_is_Some, Forall_forall. intros p Hp. simpl.
  unfold MixedOp.OPS. rewrite decide_True by auto. by eexists.
Qed.

Lemma forward_sum_upto (m : MixedOp.t) (x : T) (weights : list W) :
  length weights = length (MixedOp._ops m) ->
  MixedOp.forward m x weights =
    sum_upto (fun k => match weights !! k, MixedOp._ops m !! k with
                       | Some w, Some op => tscale w (run op x)
                       | _, _ => tzero
                       end) (length weights).
Proof.
  intros Hlen. unfold MixedOp.forward. rewrite py_sum_sum_upto.
  rewrite length_map, length_zip_with, <- Hlen, Nat.min_id.
  apply sum_upto_ext. intros k Hk.
  rewrite list_lookup_fmap, lookup_zip_with.
  destruct (weights !! k), (MixedOp._ops m !! k); done.
Qed.

Lemma forward_traced_fold (x : T) (l : list (W * module)) acc called :
  fold_left (fun '(acc, called) '(w, op) => (tadd acc (tscale w (run op x)), called ++ [op]))
            l (acc, called)
  = (fold_left tadd (map (fun '(w, op) => tscale w (run op x)) l) acc, called ++ l.*2).
Proof.
  revert acc called. induction l as [|[w op] l IH]; intros acc called; simpl.
  - by rewrite app_nil_r.
  - rewrite IH. by rewrite <- app_assoc.
Qed.

Lemma sum_upto_one_hot `{!TensorLaws W T} (term : nat -> T) (t : T) n k :
  term k = tscale wone t ->
  (forall i, i < n -> i <> k -> exists t', term i = tscale wzero t') ->
  sum_upto term n = if decide (k < n) then t else tzero.
Proof.
  intros Hk. induction n as [|n IH]; intros Hother; simpl; [done|].
  rewrite IH by (intros; apply Hother; lia).
  destruct (decide (n = k)) as [->|Hne].
  - rewrite decide_False, decide_True by lia. by rewrite Hk, tscale_one, tadd_zero_l.
  - destruct (Hother n ltac:(lia) Hne) as [t' ->]. rewrite tadd_scale_zero.
    repeat case_decide; done || lia.
Qed.

(** C6. [MixedOp.forward] on a constructed mixed operation and a weight
    vector with one entry per primitive returns the sum, in index order,
    of [weight[k] * operation_k(x)] over all candidates; every candidate
    is applied, once and in order, whatever its weight; and for the
    one-hot vector at [k] the result is [operation_k(x)] (with exact
    arithmetic in the tensor engine). *)
Theorem MixedOp_forward_weighted_sum `{!TensorLaws W T}
    (C stride : Z) (m : MixedOp.t) (x : T) (weights : list W) :
  MixedOp.init C stride = Some m ->
  length weights = length PRIMITIVES ->
  MixedOp.forward m x weights =
    sum_upto (fun k => match weights !! k, MixedOp._ops m !! k with
                       | Some w, Some op => tscale w (run op x)
                       | _, _ => tzero
                       end) (length PRIMITIVES)
  /\ (forall k, k < length PRIMITIVES ->
        is_Some (weights !! k) /\ is_Some (MixedOp._ops m !! k))
  /\ MixedOp.forward_traced m x weights = (MixedOp.forward m x weights, MixedOp._ops m)
  /\ (forall k op, MixedOp._ops m !! k = Some op ->
        MixedOp.forward m x (one_hot (length PRIMITIVES) k) = run op x).
Proof.
  intros Hinit Hlen. pose proof (MixedOp_init_length _ _ _ Hinit) as Hops.
  split_and!.
  - rewrite forward_sum_upto by congruence. by rewrite Hlen.
  - intros k Hk. split; apply lookup_lt_is_Some; lia.
  - unfold MixedOp.forward_traced, MixedOp.forward, py_sum.
    rewrite forward_traced_fold. simpl. f_equal. apply snd_zip. lia.
  - intros k op Hk.
    assert (length (one_hot (length PRIMITIVES) k : list W) = length PRIMITIVES) as Hoh
      by (unfold one_hot; by rewrite length_map, length_seq).
    rewrite forward_sum_upto by congruence. rewrite Hoh.
    rewrite (sum_upto_one_hot _ (run op x) _ k).
    + apply lookup_lt_Some in Hk. rewrite decide_True by lia. done.
    + unfold one_hot. rewrite list_lookup_fmap, lookup_seq_lt
        by (apply lookup_lt_Some in Hk; lia).
      simpl. rewrite decide_True by done. by rewrite Hk.
    + intros i Hi Hne. unfold one_hot. rewrite list_lookup_fmap, lookup_seq_lt by done.
      simpl. rewrite decide_False by done.
      destruct (lookup_lt_is_Some_2 (MixedOp._ops m) i ltac:(lia)) as [op' ->].
      by eexists.
Qed.
End mixed_op.

(** C6 at the small registry, with integer tensors. *)
Lemma MixedOp_forward_weighted_sum_witness :
  exists m,
    @MixedOp.init small_registry 16 1 = Some m /\
    @MixedOp.forward Z Z Z_tensor m 5%Z [0; 0; 1; 0]%Z = 5%Z.
Proof.
  destruct (@MixedOp.init small_registry 16 1) as [m|] eqn:Hinit; [|by vm_compute in Hinit].
  exists m. split; [done|].
  pose proof (@MixedOp_forward_weighted_sum small_registry Z Z_scalar Z Z_tensor
                Z_tensor_laws 16 1 m 5%Z [0; 0; 1; 0]%Z Hinit eq_refl) as (_ & _ & _ & Hhot).
  vm_compute in Hinit. injection Hinit as <-.
  exact (Hhot 2 (Op "skip_connect" 16 1 false) eq_refl).
Defined.

(** ** Loops that append *)

Section loops.
Context {A B : Type}.

Lemma for_each_append (f : A -> option B) xs acc :
  for_each (fun acc x => y ← f x; Some (acc ++ [y])) xs acc
  = (ys ← mapM f xs; Some (acc ++ ys)).
Proof.
  revert acc. induction xs as [|x xs IH]; intros acc; simpl.
  - by rewrite app_nil_r.
  - destruct (f x) as [y|]; simpl; [|done]. rewrite IH.
    destruct (mapM f xs) as [ys|]; simpl; [|done]. by rewrite <- app_assoc.
Qed.

Lemma for_each_append_nested {I} (inner : I -> list A) (f : A -> option B) xs acc :
  for_each (fun acc i => for_each (fun acc x => y ← f x; Some (acc ++ [y])) (inner i) acc)
           xs acc
  = (groups ← mapM (fun i => mapM f (inner i)) xs; Some (acc ++ concat groups)).
Proof.
  revert acc. induction xs as [|i xs IH]; intros acc; simpl.
  - by rewrite app_nil_r.
  - rewrite for_each_append. destruct (mapM f (inner i)) as [ys|]; simpl; [|done].
    rewrite IH. destruct (mapM _ xs) as [groups|]; simpl; [|done].
    by rewrite <- app_assoc.
Qed.

Lemma for_each_snoc {S} (body : S -> A -> option S) xs x acc :
  for_each body (xs ++ [x]) acc = (acc' ← for_each body xs acc; body acc' x).
Proof.
  revert acc. induction xs as [|x' xs IH]; intros acc; simpl.
  - by destruct (body acc x).
  - destruct (body acc x'); simpl; [apply IH|done].
Qed.
End loops.

Lemma edges_before_S i : edges_before (S i) = edges_before i + (i + 2).
Proof.
  unfold edges_before. rewrite seq_S, map_app, sum_list_with_app. simpl. lia.
Qed.

Lemma edges_before_closed i : 2 * edges_before i = i * (i + 3).
Proof. induction i as [|i IH]; [done|]. rewrite edges_before_S. lia. Qed.

Lemma edges_before_mono i j : i <= j -> edges_before i <= edges_before j.
Proof. induction 1; [done|]. rewrite edges_before_S. lia. Qed.

(** Rows grouped by node, node [i] holding [i + 2] of them, sit in the
    flattened list at [edges_before i + j]. *)
Section grouped.
Context {A : Type}.
Implicit Types groups : list (list A).

Lemma grouped_length groups :
  (forall i r, groups !! i = Some r -> length r = i + 2) ->
  length (concat groups) = edges_before (length groups).
Proof.
  induction groups as [|r groups IH] using rev_ind; intros Hlen; [done|].
  rewrite concat_app, !length_app, Nat.add_1_r, edges_before_S. simpl.
  rewrite app_nil_r, IH.
  - f_equal. apply Hlen. by apply list_lookup_middle.
  - intros i r' Hi. apply Hlen. by apply lookup_app_l_Some.
Qed.

Lemma grouped_lookup groups i r j :
  (forall i r, groups !! i = Some r -> length r = i + 2) ->
  groups !! i = Some r -> j < i + 2 ->
  concat groups !! (edges_before i + j) = r !! j.
Proof.
  revert i r j. induction groups as [|r' groups IH] using rev_ind;
    intros i r j Hlen Hi Hj; [done|].
  assert (forall i r, groups !! i = Some r -> length r = i + 2) as Hlen'
    by (intros i' r'' Hi'; apply Hlen; by apply lookup_app_l_Some).
  rewrite concat_app. simpl. rewrite app_nil_r.
  apply lookup_snoc_Some in Hi as [[Hi Hr]|[-> ->]].
  - rewrite lookup_app_l; [by apply IH|].
    rewrite grouped_length by done.
    pose proof (edges_before_mono (S i) (length groups) ltac:(lia)) as Hm.
    rewrite edges_before_S in Hm. lia.
  - rewrite lookup_app_r; rewrite grouped_length by done; [|lia].
    f_equal. lia.
Qed.
End grouped.

(** ** Cell construction *)

Section cell_init.
Context `{Registry}.

Lemma Cell_init_ops steps multiplier C_prev_prev C_prev C reduction reduction_prev cell :
  Cell.init steps multiplier C_prev_prev C_prev C reduction reduction_prev = Some cell ->
  exists groups,
    mapM (fun i => mapM (fun j => MixedOp.init C (Cell.edge_stride reduction j))
                        (seq 0 (2 + i)))
         (seq 0 (Z.to_nat steps)) = Some groups
    /\ Cell._ops cell = concat groups
    /\ Cell.reduction cell = reduction
    /\ Cell._steps cell = steps
    /\ Cell._multiplier cell = multiplier.
Proof.
  unfold Cell.init. rewrite for_each_append_nested.
  destruct (mapM _ (seq 0 (Z.to_nat steps))) as [groups|]; simpl; [|done].
  intros [= <-]. by exists groups.
Qed.

Lemma Cell_init_is_Some steps multiplier C_prev_prev C_prev C reduction reduction_prev :
  (forall p, p ∈ PRIMITIVES -> p ∈ OPS_keys) ->
  is_Some (Cell.init steps multiplier C_prev_prev C_prev C reduction reduction_prev).
Proof.
  intros Hkeys. unfold Cell.init. rewrite for_each_append_nested.
  destruct (mapM _ (seq 0 (Z.to_nat steps))) as [groups|] eqn:Hg; simpl; [by eexists|].
  assert (is_Some (mapM (fun i => mapM (fun j => MixedOp.init C (Cell.edge_stride reduction j))
                                       (seq 0 (2 + i)))
                        (seq 0 (Z.to_nat steps)))) as [? Hs]; [|congruence].
  apply mapM_is_Some, Forall_forall. intros i _. unfold compose.
  apply mapM_is_Some, Forall_forall. intros j _. unfold compose.
  by apply MixedOp_init_is_Some.
Qed.

Lemma groups_shape {B} (g : nat -> option B) n groups :
  mapM (fun i => mapM g (seq 0 (2 + i))) (seq 0 n) = Some groups ->
  length groups = n /\
  (forall i r, groups !! i = Some r -> length r = i + 2) /\
  (forall i j, i < n -> j < i + 2 ->
     exists r x, groups !! i = Some r /\ r !! j = Some x /\ g j = Some x).
Proof.
  intros Hg. pose proof (length_mapM _ _ _ Hg) as Hlen. rewrite length_seq in Hlen.
  apply mapM_Some in Hg.
  assert (forall i r, groups !! i = Some r ->
            Forall2 (fun j x => g j = Some x) (seq 0 (2 + i)) r) as Hrow.
  { intros i r Hi. destruct (Forall2_lookup_r _ _ _ _ _ Hg Hi) as (i' & Hi' & Hr).
    apply lookup_seq in Hi' as [-> _]. by apply mapM_Some in Hr. }
  split_and!; [done|..].
  - intros i r Hi. apply Hrow, Forall2_length in Hi. rewrite length_seq in Hi. lia.
  - intros i j Hi Hj.
    destruct (lookup_lt_is_Some_2 groups i ltac:(lia)) as [r Hr]. exists r.
    pose proof (Hrow _ _ Hr) as Hf.
    destruct (Forall2_lookup_l _ _ _ j j Hf) as (x & Hx & Hgx);
      [apply lookup_seq; lia|]. by exists x.
Qed.

Lemma Cell_init_edge steps multiplier C_prev_prev C_prev C reduction reduction_prev cell i j :
  Cell.init steps multiplier C_prev_prev C_prev C reduction reduction_prev = Some cell ->
  i < Z.to_nat steps -> j < i + 2 ->
  exists mixed,
    Cell._ops cell !! (edges_before i + j) = Some mixed /\
    MixedOp.init C (Cell.edge_stride reduction j) = Some mixed.
Proof.
  intros Hinit Hi Hj.
  destruct (Cell_init_ops _ _ _ _ _ _ _ _ Hinit) as (groups & Hg & -> & _).
  destruct (groups_shape _ _ _ Hg) as (Hlen & Hrows & Hedge).
  destruct (Hedge i j Hi Hj) as (r & mixed & Hr & Hx & Hmixed).
  exists mixed. split; [|done]. by rewrite (grouped_lookup groups i r j).
Qed.

Lemma Cell_init_length steps multiplier C_prev_prev C_prev C reduction reduction_prev cell :
  Cell.init steps multiplier C_prev_prev C_prev C reduction reduction_prev = Some cell ->
  length (Cell._ops cell) = edges_before (Z.to_nat steps).
Proof.
  intros Hinit.
  destruct (Cell_init_ops _ _ _ _ _ _ _ _ Hinit) as (groups & Hg & -> & _).
  destruct (groups_shape _ _ _ Hg) as (Hlen & Hrows & _).
  by rewrite grouped_length, Hlen.
Qed.

(** C3. In a constructed cell, the mixed operation on the edge from source
    [j] into node [i] is [MixedOp(C, stride)] with [stride = 2] exactly
    when the cell is a reduction cell and [j] is 0 or 1, and [stride = 1]
    otherwise; every candidate operation inside it was constructed with
    that stride. *)
Theorem Cell_init_stride
    steps multiplier C_prev_prev C_prev C reduction reduction_prev cell i j :
  Cell.init steps multiplier C_prev_prev C_prev C reduction reduction_prev = Some cell ->
  i < Z.to_nat steps -> j < i + 2 ->
  exists mixed stride,
    Cell._ops cell !! (edges_before i + j) = Some mixed /\
    MixedOp.init C stride = Some mixed /\
    (stride = 2%Z <-> reduction = true /\ (j = 0 \/ j = 1)) /\
    (stride = 1%Z <-> ~ (reduction = true /\ (j = 0 \/ j = 1))) /\
    (forall op, op ∈ MixedOp._ops mixed -> op_stride op = Some stride).
Proof.
  intros Hinit Hi Hj.
  destruct (Cell_init_edge _ _ _ _ _ _ _ _ _ _ Hinit Hi Hj) as (mixed & Hlook & Hmixed).
  exists mixed, (Cell.edge_stride reduction j). split_and!; [done|done|..].
  - unfold Cell.edge_stride. destruct reduction; simpl; [|intuition (done || lia)].
    case_bool_decide; intuition (done || lia).
  - unfold Cell.edge_stride. destruct reduction; simpl; [|intuition (done || lia)].
    case_bool_decide; intuition (done || lia).
  - intros op Hop. apply list_elem_of_lookup in Hop as [k Hk].
    destruct (MixedOp_init_lookup _ _ _ _ _ Hmixed Hk) as (name & _ & _ & ->).
    by destruct (contains "pool" name).
Qed.
End cell_init.

(** C3 at a reduction cell of the small registry: the edge from input 1
    into node 1 has stride 2. *)
Lemma Cell_init_stride_witness :
  exists cell mixed,
    @Cell.init small_registry 4 4 48 48 32 true false = Some cell /\
    Cell._ops cell !! 3 = Some mixed /\
    @MixedOp.init small_registry 32 2 = Some mixed.
Proof.
  destruct (@Cell.init small_registry 4 4 48 48 32 true false) as [cell|] eqn:Hinit;
    [|by vm_compute in Hinit].
  destruct (@Cell_init_stride small_registry 4 4 48 48 32 true false cell 1 1 Hinit
              ltac:(vm_compute; lia) ltac:(lia))
    as (mixed & stride & Hlook & Hmixed & Hs2 & _).
  exists cell, mixed. split_and!; [done|exact Hlook|].
  replace 2%Z with stride; [done|]. apply Hs2. auto.
Defined.

(** ** Cell.forward *)

Section cell_forward.
Context `{Registry} `{Tensor W T}.

Lemma torch_cat_Some (ts : list T) : ts <> [] -> torch_cat ts = Some (cat ts).
Proof. by destruct ts. Qed.




End cell_forward.


(** ** The stable sort *)

Section sorting.
Context `{ScalarOrder W}.

Lemma pair_before_trans p q r : pair_before p q -> pair_before q r -> pair_before p r.
Proof.
  intros [Hpq|[Hpq Hi]] [Hqr|[Hqr Hj]].
  - left. eapply wltb_wleb_trans; [done|by apply wltb_wleb].
  - left. by eapply wltb_wleb_trans.
  - left. by eapply wleb_wltb_trans.
  - right. split; [by eapply wleb_trans|lia].
Qed.

Lemma insert_by_key_perm (p : W * nat) l : insert_by_key p l ≡ₚ p :: l.
Proof.
  induction l as [|q l IH]; simpl; [done|].
  destruct (wltb q.1 p.1); [|done]. by rewrite IH, Permutation_swap.
Qed.

Lemma sort_by_key_perm (l : list (W * nat)) : sort_by_key l ≡ₚ l.
Proof.
  induction l as [|p l IH]; simpl; [done|]. by rewrite insert_by_key_perm, IH.
Qed.

Lemma insert_by_key_sorted p l :
  StronglySorted pair_before l ->
  Forall (fun q => p.2 < q.2) l ->
  StronglySorted pair_before (insert_by_key p l).
Proof.
  induction 1 as [|q l Hsorted IH Hq]; intros Hlater; simpl.
  - by repeat constructor.
  - apply Forall_cons in Hlater as [Hpq Hlater].
    destruct (wltb q.1 p.1) eqn:Hlt.
    + constructor; [by apply IH|].
      rewrite insert_by_key_perm. constructor; [by left|done].
    + assert (pair_before p q) as Hbefore by (right; split; [by apply wltb_false|done]).
      constructor; [by constructor|]. constructor; [done|].
      eapply Forall_impl; [exact Hq|]. intros r Hr. by eapply pair_before_trans.
Qed.

Lemma sort_by_key_sorted (l : list (W * nat)) :
  StronglySorted (fun p q => p.2 < q.2) l ->
  StronglySorted pair_before (sort_by_key l).
Proof.
  induction 1 as [|p l Hsorted IH Hp]; simpl; [constructor|].
  apply insert_by_key_sorted; [done|]. by rewrite sort_by_key_perm.
Qed.

Lemma zip_seq_sorted (keys : list W) start n :
  StronglySorted (fun p q : W * nat => p.2 < q.2) (zip keys (seq start n)).
Proof.
  revert keys start. induction n as [|n IH]; intros [|k keys] start; simpl; try constructor.
  - apply IH.
  - apply Forall_forall. intros [k' x] Hx. apply elem_of_zip_r, elem_of_seq in Hx.
    simpl in *. lia.
Qed.

(** The first two elements of the sorted list come before everything
    else. *)
Lemma sort_by_key_top2 (keys : list W) n :
  length keys = n -> 2 <= n ->
  exists pa pb rest,
    sort_by_key (zip keys (seq 0 n)) = pa :: pb :: rest /\
    keys !! pa.2 = Some pa.1 /\ keys !! pb.2 = Some pb.1 /\
    pa.2 <> pb.2 /\
    pair_before pa pb /\
    forall x k, keys !! x = Some k -> x <> pa.2 -> x <> pb.2 -> pair_before pb (k, x).
Proof.
  intros Hlen Hn.
  pose proof (sort_by_key_perm (zip keys (seq 0 n))) as Hperm.
  pose proof (sort_by_key_sorted _ (zip_seq_sorted keys 0 n)) as Hsorted.
  assert (forall p, p ∈ sort_by_key (zip keys (seq 0 n)) <-> keys !! p.2 = Some p.1) as Hin.
  { intros [k x]. rewrite Hperm. simpl. split.
    - intros Hp. apply list_elem_of_lookup in Hp as [i Hi].
      apply lookup_zip_with_Some in Hi as (k' & x' & [= <- <-] & Hk & Hx).
      apply lookup_seq in Hx as [-> _]. done.
    - intros Hk. apply list_elem_of_lookup. exists x.
      apply lookup_zip_with_Some. exists k, x. split_and!; [done..|].
      apply lookup_seq. split; [done|]. apply lookup_lt_Some in Hk. lia. }
  assert (NoDup (sort_by_key (zip keys (seq 0 n))).*2) as Hnodup.
  { rewrite Hperm, snd_zip by (rewrite length_seq; lia). apply NoDup_seq. }
  assert (length (sort_by_key (zip keys (seq 0 n))) = n) as Hslen.
  { rewrite Hperm, length_zip_with, length_seq. lia. }
  destruct (sort_by_key (zip keys (seq 0 n))) as [|pa [|pb rest]]; simpl in Hslen; try lia.
  exists pa, pb, rest. split; [done|].
  apply StronglySorted_inv in Hsorted as [Hsorted Hpa].
  apply StronglySorted_inv in Hsorted as [Hsorted Hpb].
  simpl in Hnodup. apply NoDup_cons in Hnodup as [Hnotin _].
  split_and!.
  - apply Hin. by left.
  - apply Hin. right. by left.
  - intros Heq. apply Hnotin. rewrite Heq. by left.
  - by apply Forall_cons in Hpa as [? _].
  - intros x k Hk Hxa Hxb.
    assert ((k, x) ∈ pa :: pb :: rest) as Hx by by apply Hin.
    apply elem_of_cons in Hx as [Heq|Hx]; [by subst pa|].
    apply elem_of_cons in Hx as [Heq|Hx]; [by subst pb|].
    eapply Forall_forall in Hpb; done.
Qed.
End sorting.

(** ** Genotype extraction *)

Section parse.
Context `{Registry} `{ScalarOrder W}.

Lemma node_selection_app ni weights gene more i :
  node_selection ni weights gene i -> node_selection ni weights (gene ++ more) i.
Proof.
  intros (a & b & ka & kb & sa & sb & opa & opb & Ha & Hb & Hrest).
  exists a, b, ka, kb, sa, sb, opa, opb.
  split; [by apply lookup_app_l_Some|]. split; [by apply lookup_app_l_Some|]. exact Hrest.
Qed.

Lemma edge_key_inv ni Wn x k :
  py_index "none" PRIMITIVES = Some ni ->
  Network.edge_key Wn x = Some k ->
  exists row best,
    Wn !! x = Some row /\
    scan_best (fun k => bool_decide (k = ni)) 0 row None = Some best /\
    k = wopp best.2.
Proof.
  intros Hni. unfold Network.edge_key. rewrite Hni.
  destruct (Wn !! x) as [row|]; simpl; [|done].
  destruct (scan_best _ 0 row None) as [best|] eqn:Hscan; simpl; [|done].
  intros [= <-]. by exists row, best.
Qed.

Lemma pair_before_ranks (a b : nat) (sa sb : W) :
  pair_before (wopp sa, a) (wopp sb, b) -> ranks_before a sa b sb.
Proof.
  unfold pair_before, ranks_before. simpl. by rewrite wltb_opp, wopp_anti.
Qed.

Section node.
Context (ni : nat) (weights : list (list W)).
Hypothesis Hni : py_index "none" PRIMITIVES = Some ni.
Hypothesis Hops : 2 <= length PRIMITIVES.
Hypothesis Hcols : Forall (fun row => length row = length PRIMITIVES) weights.

Lemma scan_row_is_Some row :
  length row = length PRIMITIVES ->
  is_Some (scan_best (fun k => bool_decide (k = ni)) 0 row None).
Proof.
  intros Hlen. destruct (decide (ni = 0)) as [->|].
  - apply (scan_best_is_Some 0 row 1); lia.
  - apply (scan_best_is_Some ni row 0); lia.
Qed.

Lemma parse_edge_spec Wn i gene cnt x row :
  Wn !! x = Some row ->
  weights !! (edges_before i + x) = Some row ->
  exists k s op cnt',
    Network.parse_edge Wn (gene, cnt) x = Some (gene ++ [(op, x)], cnt') /\
    Network.edge_key Wn x = Some (wopp s) /\
    edge_choice ni weights i x k s /\
    PRIMITIVES !! k = Some op.
Proof.
  intros HWn Hrow.
  assert (length row = length PRIMITIVES) as Hlen.
  { eapply Forall_lookup in Hcols; done. }
  destruct (scan_row_is_Some row Hlen) as [[k s] Hscan].
  pose proof (scan_best_first_max _ _ _ _ Hscan) as Hmax.
  assert (is_Some (PRIMITIVES !! k)) as [op Hop].
  { apply lookup_lt_is_Some. rewrite <- Hlen. destruct Hmax as [Hk _].
    by apply lookup_lt_Some in Hk. }
  exists k, s, op. eexists.
  unfold Network.parse_edge, Network.edge_key. rewrite HWn, Hni. simpl.
  rewrite Hscan. simpl. rewrite Hop. simpl.
  split_and!; [done|done| |done]. by exists row.
Qed.

Lemma parse_node_spec gene cnt i :
  edges_before (S i) <= length weights ->
  exists entry_a entry_b cnt',
    Network.parse_node weights (gene, i + 2, edges_before i, cnt) i
      = Some (gene ++ [entry_a; entry_b], S i + 2, edges_before (S i), cnt') /\
    forall gene', length gene' = 2 * i ->
      node_selection ni weights (gene' ++ [entry_a; entry_b]) i.
Proof.
  intros Hrows. rewrite edges_before_S in Hrows.
  unfold Network.parse_node.
  replace (edges_before i + (i + 2) - edges_before i) with (i + 2) by lia.
  set (Wn := take (i + 2) (drop (edges_before i) weights)).
  assert (forall x, x < i + 2 -> exists row,
            Wn !! x = Some row /\ weights !! (edges_before i + x) = Some row) as HWn.
  { intros x Hx. subst Wn. rewrite lookup_take_lt, lookup_drop by done.
    destruct (lookup_lt_is_Some_2 weights (edges_before i + x) ltac:(lia)) as [row Hrow].
    by exists row. }
  destruct (mapM (Network.edge_key Wn) (seq 0 (i + 2))) as [keys|] eqn:Hkeys.
  2:{ exfalso.
      assert (is_Some (mapM (Network.edge_key Wn) (seq 0 (i + 2)))) as [? Hs]; [|congruence].
      apply mapM_is_Some_2, Forall_forall. intros x Hx. unfold compose.
      apply elem_of_seq in Hx. destruct (HWn x ltac:(lia)) as (row & Hr1 & Hr2).
      destruct (parse_edge_spec Wn i [] 0 x row Hr1 Hr2) as (? & ? & ? & ? & _ & Hkey & _).
      by eexists. }
  pose proof (length_mapM _ _ _ Hkeys) as Hklen. rewrite length_seq in Hklen.
  apply mapM_Some in Hkeys.
  assert (forall x k, keys !! x = Some k -> x < i + 2 /\ Network.edge_key Wn x = Some k)
    as Hkey.
  { intros x k Hk. destruct (Forall2_lookup_r _ _ _ _ _ Hkeys Hk) as (x' & Hx' & Hkx).
    apply lookup_seq in Hx' as [-> Hlt]. done. }
  destruct (sort_by_key_top2 keys (i + 2) ltac:(lia) ltac:(lia))
    as ([ka a] & [kb b] & rest & Hsort & Hka & Hkb & Hab & Hbefore & Hothers).
  simpl in Hka, Hkb, Hab.
  Local Opaque Network.parse_edge.
  unfold sorted.
  assert (mapM (Network.edge_key Wn) (seq 0 (i + 2)) = Some keys) as -> by by apply mapM_Some.
  simpl. rewrite Hsort. simpl.
  destruct (Hkey _ _ Hka) as [Ha Hkeya]. destruct (Hkey _ _ Hkb) as [Hb Hkeyb].
  destruct (HWn a Ha) as (rowa & Hra1 & Hra2). destruct (HWn b Hb) as (rowb & Hrb1 & Hrb2).
  destruct (parse_edge_spec Wn i gene cnt a rowa Hra1 Hra2)
    as (ia & sa & opa & cnt1 & Hpa & Hkeya' & Hca & Hopa).
  destruct (parse_edge_spec Wn i (gene ++ [(opa, a)]) cnt1 b rowb Hrb1 Hrb2)
    as (ib & sb & opb & cnt2 & Hpb & Hkeyb' & Hcb & Hopb).
  exists (opa, a), (opb, b), cnt2.
  rewrite Hpa. simpl. rewrite Hpb. simpl. rewrite <- app_assoc. simpl.
  split; [rewrite edges_before_S; by replace (i + 2 + 1) with (S (i + 2)) by lia|].
  intros gene' Hlen. exists a, b, ia, ib, sa, sb, opa, opb.
  assert (ka = wopp sa) as -> by congruence. assert (kb = wopp sb) as -> by congruence.
  split_and!; try done.
  - rewrite lookup_app_r by lia. by replace (2 * i - length gene') with 0 by lia.
  - rewrite lookup_app_r by lia. by replace (2 * i + 1 - length gene') with 1 by lia.
  - by apply pair_before_ranks.
  - intros x Hx Hxa Hxb.
    destruct (HWn x Hx) as (rowx & Hrx1 & Hrx2).
    destruct (parse_edge_spec Wn i [] 0 x rowx Hrx1 Hrx2)
      as (ix & sx & opx & ? & _ & Hkeyx & Hcx & _).
    exists ix, sx. split; [done|]. apply pair_before_ranks.
    apply Hothers; [|done..].
    destruct (lookup_lt_is_Some_2 keys x ltac:(lia)) as [k Hk].
    destruct (Hkey _ _ Hk) as [_ Hk']. congruence.
Qed.
Local Transparent Network.parse_edge.
End node.

Lemma parse_loop_spec ni (weights : list (list W)) steps n :
  py_index "none" PRIMITIVES = Some ni ->
  2 <= length PRIMITIVES ->
  Forall (fun row => length row = length PRIMITIVES) weights ->
  edges_before steps <= length weights ->
  n <= steps ->
  exists gene cnt,
    for_each (Network.parse_node weights) (seq 0 n) ([], 2, 0, 0)
      = Some (gene, n + 2, edges_before n, cnt) /\
    length gene = 2 * n /\
    forall i, i < n -> node_selection ni weights gene i.
Proof.
  intros Hni Hops Hcols Hrows Hn. induction n as [|n IH].
  - exists [], 0. split_and!; [done..|]. intros i Hi. lia.
  - destruct IH as (gene & cnt & Hloop & Hlen & Hnodes); [lia|].
    pose proof (edges_before_mono (S n) steps Hn) as Hm.
    destruct (parse_node_spec ni weights Hni Hops Hcols gene cnt n ltac:(lia))
      as (ea & eb & cnt' & Hstep & Hnode).
    exists (gene ++ [ea; eb]), cnt'.
    rewrite seq_S, for_each_snoc, Hloop. simpl.
    split_and!; [done|rewrite length_app; simpl; lia|].
    intros i Hi. destruct (decide (i = n)) as [->|]; [by apply Hnode|].
    apply node_selection_app, Hnodes. lia.
Qed.

Lemma parse_total ni (weights : list (list W)) (steps : Z) :
  py_index "none" PRIMITIVES = Some ni ->
  2 <= length PRIMITIVES ->
  Forall (fun row => length row = length PRIMITIVES) weights ->
  edges_before (Z.to_nat steps) <= length weights ->
  exists gene cnt,
    Network._parse steps weights = Some (gene, cnt) /\
    length gene = 2 * Z.to_nat steps /\
    forall i, i < Z.to_nat steps -> node_selection ni weights gene i.
Proof.
  intros Hni Hops Hcols Hrows.
  destruct (parse_loop_spec ni weights (Z.to_nat steps) (Z.to_nat steps)
              Hni Hops Hcols Hrows (le_n _)) as (gene & cnt & Hloop & Hlen & Hnodes).
  exists gene, cnt. unfold Network._parse. rewrite Hloop. done.
Qed.

Lemma py_index_first_position (x : string) (l : list string) (k : nat) :
  first_position x l k -> py_index x l = Some k.
Proof.
  intros [Hk Hfirst]. unfold py_index.
  assert (list_find (fun y => y = x) l = Some (k, x)) as ->; [|done].
  apply list_find_Some. split_and!; [done|done|].
  intros j y Hj Hlt ->. by apply (Hfirst j).
Qed.

Lemma node_selection_names ni weights gene i entry :
  (forall j, PRIMITIVES !! j = Some "none"%string -> j = ni) ->
  node_selection ni weights gene i ->
  gene !! (2 * i) = Some entry \/ gene !! (2 * i + 1) = Some entry ->
  entry.1 <> "none"%string.
Proof.
  intros Honly (a & b & ka & kb & sa & sb & opa & opb & Ha & Hb & _ & _ & _
                & (rowa & _ & _ & Hka & _) & (rowb & _ & _ & Hkb & _) & Hopa & Hopb & _).
  intros [Hentry|Hentry] Hnone.
  - rewrite Ha in Hentry. injection Hentry as <-. simpl in Hnone. subst opa.
    apply Hka. f_equal. by apply Honly.
  - rewrite Hb in Hentry. injection Hentry as <-. simpl in Hnone. subst opb.
    apply Hkb. f_equal. by apply Honly.
Qed.

(** C1. Let "none" stand at position [ni] of [PRIMITIVES], and nowhere
    before. For [steps >= 1] and a weight table with one row per edge and
    one column per primitive, [_parse] returns a gene with exactly two
    [(operation_name, source_node_index)] pairs per intermediate node. The
    two sources of node [i] are different edges of that node; ranking the
    node's edges by strength (the greatest weight over the operations other
    than the one at [ni]), stronger first and earlier first among equals,
    the first recorded edge ranks before the second and the second before
    every other edge. The recorded operation of a kept edge is the first
    operation, other than the one at [ni], that holds the edge's greatest
    weight; so, "none" standing nowhere else in [PRIMITIVES], no pair of
    the gene names "none". *)
Theorem parse_selects_top2 (ni : nat) (weights : list (list W)) (steps : Z) :
  (1 <= steps)%Z ->
  first_position "none"%string PRIMITIVES ni ->
  2 <= length PRIMITIVES ->
  length weights = edges_before (Z.to_nat steps) ->
  Forall (fun row => length row = length PRIMITIVES) weights ->
  exists gene cnt,
    Network._parse steps weights = Some (gene, cnt) /\
    length gene = 2 * Z.to_nat steps /\
    (forall i, i < Z.to_nat steps -> node_selection ni weights gene i) /\
    ((forall j, PRIMITIVES !! j = Some "none"%string -> j = ni) ->
     forall entry, entry ∈ gene -> entry.1 <> "none"%string).
Proof.
  intros _ Hni Hops Hrows Hcols.
  destruct (parse_total ni weights steps (py_index_first_position _ _ _ Hni) Hops Hcols
              ltac:(lia)) as (gene & cnt & Hparse & Hlen & Hnodes).
  exists gene, cnt. split_and!; [done..|].
  intros Honly entry Hentry. apply list_elem_of_lookup in Hentry as [e He].
  pose proof (lookup_lt_Some _ _ _ He) as Hlt. rewrite Hlen in Hlt.
  apply (node_selection_names ni weights gene (e / 2) entry Honly).
  - apply Hnodes. apply Nat.Div0.div_lt_upper_bound. lia.
  - pose proof (Nat.div_mod_eq e 2) as Hdiv.
    pose proof (Nat.mod_upper_bound e 2 ltac:(lia)) as Hmod.
    destruct (decide (e mod 2 = 0)) as [Heven|Hodd].
    + left. by replace (2 * (e / 2)) with e by lia.
    + right. by replace (2 * (e / 2) + 1) with e by lia.
Qed.
End parse.

(** ** Computations that only read *)

Section read_only.
Context {W : Type}.

Lemma ro_ret {A} L (h : list (table W)) (a : A) (Q : option A -> Prop) :
  Q (Some a) -> ro L h (ret a) Q.
Proof.
  intros HQ [hp r lg] Hs. simpl in Hs. subst hp. exists (Some a), [].
  unfold ret. simpl. by rewrite app_nil_r.
Qed.

Lemma ro_lift {A} L (h : list (table W)) (o : option A) (Q : option A -> Prop) :
  Q o -> ro L h (lift o) Q.
Proof.
  intros HQ [hp r lg] Hs. simpl in Hs. subst hp. exists o, [].
  destruct o; unfold lift, ret, raise; simpl; by rewrite app_nil_r.
Qed.

Lemma ro_read L (h : list (table W)) l (Q : option (table W) -> Prop) :
  l ∈ L -> Q (h !! l) -> ro L h (read l) Q.
Proof.
  intros Hl HQ s Hs. exists (h !! l), [Read l]. unfold read. rewrite Hs.
  split_and!; [done| |done]. constructor; [by exists l|constructor].
Qed.

Lemma ro_bind {A B} L (h : list (table W)) (m : M W A) (k : A -> M W B) (P : option A -> Prop)
    (Q : option B -> Prop) :
  ro L h m P -> (forall a, P (Some a) -> ro L h (k a) Q) -> (P None -> Q None) ->
  ro L h (bind m k) Q.
Proof.
  intros Hm Hk Hfail s Hs. destruct (Hm s Hs) as (o & evs & Hrun & Hevs & HP).
  unfold bind. rewrite Hrun. destruct o as [a|].
  - destruct (Hk a HP (State h (rng s) (log s ++ evs)) eq_refl)
      as (o' & evs' & Hrun' & Hevs' & HQ).
    exists o', (evs ++ evs'). rewrite Hrun'. simpl. rewrite app_assoc.
    split_and!; [done| |done]. by apply Forall_app.
  - exists None, evs. auto.
Qed.

Lemma ro_conseq {A} L (h : list (table W)) (m : M W A) (P Q : option A -> Prop) :
  ro L h m P -> (forall o, P o -> Q o) -> ro L h m Q.
Proof.
  intros Hm HPQ s Hs. destruct (Hm s Hs) as (o & evs & Hrun & Hevs & HP).
  exists o, evs. auto.
Qed.

Lemma ro_for_eachM_from {A St} L (h : list (table W)) (body : St -> A -> M W St) (fail : Prop)
    (I : nat -> St -> Prop) xs : forall k0 acc,
  I k0 acc ->
  (forall k acc x, xs !! k = Some x -> I (k0 + k) acc ->
     ro L h (body acc x) (loop_post fail (I (S (k0 + k))))) ->
  ro L h (for_eachM body xs acc) (loop_post fail (I (k0 + length xs))).
Proof.
  induction xs as [|x xs IH]; intros k0 acc Hacc Hbody; simpl.
  - apply ro_ret. simpl. by rewrite Nat.add_0_r.
  - eapply ro_bind.
    + apply (Hbody 0 acc x); [done|]. by rewrite Nat.add_0_r.
    + simpl. intros acc' Hacc'. rewrite Nat.add_0_r in Hacc'.
      replace (k0 + S (length xs)) with (S k0 + length xs) by lia.
      apply IH; [done|]. intros k acc'' x' Hx' Hacc''.
      replace (S k0 + k) with (k0 + S k) in * by lia. by apply Hbody.
    + done.
Qed.

Lemma ro_for_eachM {A St} L (h : list (table W)) (body : St -> A -> M W St) (fail : Prop)
    (I : nat -> St -> Prop) xs acc :
  I 0 acc ->
  (forall k acc x, xs !! k = Some x -> I k acc ->
     ro L h (body acc x) (loop_post fail (I (S k)))) ->
  ro L h (for_eachM body xs acc) (loop_post fail (I (length xs))).
Proof. intros Hacc Hbody. by apply (ro_for_eachM_from L h body fail I xs 0 acc). Qed.

Lemma ro_bind_lift {A B} L (h : list (table W)) (o : option A) (k : A -> M W B)
    (Q : option B -> Prop) :
  (forall a, o = Some a -> ro L h (k a) Q) -> (o = None -> Q None) ->
  ro L h (bind (lift o) k) Q.
Proof.
  intros Hk Hfail. apply (ro_bind L h _ _ (fun o' => o' = o)); [by apply ro_lift|..]; auto.
Qed.

Lemma ro_bind_read {B} L (h : list (table W)) l (k : table W -> M W B) (Q : option B -> Prop) :
  l ∈ L ->
  (forall t, h !! l = Some t -> ro L h (k t) Q) -> (h !! l = None -> Q None) ->
  ro L h (bind (read l) k) Q.
Proof.
  intros Hl Hk Hfail.
  apply (ro_bind L h _ _ (fun o' => o' = h !! l)); [by apply ro_read|..]; auto.
Qed.

Lemma ro_weaken {A} L L' (h : list (table W)) (m : M W A) (Q : option A -> Prop) :
  L ⊆ L' -> ro L h m Q -> ro L' h m Q.
Proof.
  intros HL Hm s Hs. destruct (Hm s Hs) as (o & evs & Hrun & Hevs & HQ).
  exists o, evs. split_and!; [done| |done].
  eapply Forall_impl; [done|]. intros e (l & -> & Hl). exists l. auto.
Qed.
End read_only.

(** ** InnerCell construction *)

Section first_max_facts.
Context `{ScalarOrder W}.




End first_max_facts.

Section inner_cell.
Context `{Registry} `{ScalarOrder W}.

Lemma chosen_name_is_Some row :
  row <> [] -> length row <= length OPS_keys -> is_Some (chosen_name row).
Proof.
  intros Hne Hlen. unfold chosen_name.
  destruct (argmax_is_Some row Hne) as (a & -> & Ha). simpl.
  apply lookup_lt_is_Some. lia.
Qed.

Lemma init_edge_spec h weights data C reduction offset ops j row :
  h !! weights = Some data ->
  rows data !! (offset + j) = Some row ->
  row <> [] -> length row <= length OPS_keys ->
  ro [weights] h (InnerCell.init_edge C reduction weights offset ops j)
     (loop_post False (fun ops' => exists op,
        ops' = ops ++ [op] /\ edge_operation C reduction row j op)).
Proof.
  intros Hdata Hrow Hne Hlen.
  destruct (chosen_name_is_Some row Hne Hlen) as [name Hname].
  unfold InnerCell.init_edge.
  apply ro_bind_read; [by left| |congruence]. intros data' Hdata'.
  assert (data' = data) as -> by congruence.
  apply ro_bind_lift; [|congruence]. intros row' Hrow'.
  assert (row' = row) as -> by congruence.
  unfold chosen_name in Hname.
  destruct (argmax row) as [a|] eqn:Harg; simpl in Hname; [|done].
  apply ro_bind_lift; [|done]. intros a' [= <-].
  apply ro_bind_lift; [|congruence]. intros name' Hname'.
  assert (name' = name) as -> by congruence.
  assert (MixedOp.OPS name C (Cell.edge_stride reduction j) false
          = Some (Op name C (Cell.edge_stride reduction j) false)) as HOPS.
  { unfold MixedOp.OPS. rewrite decide_True; [done|]. by eapply list_elem_of_lookup_2. }
  apply ro_bind_lift; [|congruence]. intros op Hop.
  assert (op = Op name C (Cell.edge_stride reduction j) false) as -> by congruence.
  apply ro_ret. simpl. eexists. split; [done|]. exists name. split; [|done].
  unfold chosen_name. by rewrite Harg.
Qed.

Lemma InnerCell_init_spec h weights data
    steps multiplier C_prev_prev C_prev C reduction reduction_prev :
  h !! weights = Some data ->
  edges_before (Z.to_nat steps) <= length (rows data) ->
  rows_resolvable data ->
  ro [weights] h
     (InnerCell.init steps multiplier C_prev_prev C_prev C reduction reduction_prev weights)
     (loop_post False (fun cell =>
        inner_ops data C reduction (Z.to_nat steps) (InnerCell._ops cell) /\
        InnerCell.reduction cell = reduction /\
        InnerCell._steps cell = steps /\
        InnerCell._multiplier cell = multiplier)).
Proof.
  intros Hdata Hrows Hres. unfold InnerCell.init.
  eapply ro_bind.
  - apply (ro_for_eachM [weights] h _ False
             (fun n acc => acc.2 = edges_before n /\ inner_ops data C reduction n acc.1)).
    { split; [done|]. split; [done|]. intros i j Hi. lia. }
    intros n [ops offset] i Hi (Hoff & Hlen & Hops). simpl in Hoff, Hlen, Hops.
    apply lookup_seq in Hi as [-> Hn]. simpl in Hn. subst offset.
    pose proof (edges_before_mono (S n) (Z.to_nat steps) ltac:(lia)) as Hm.
    rewrite edges_before_S in Hm.
    eapply ro_bind.
    + apply (ro_for_eachM [weights] h _ False
               (fun k acc => exists ys, acc = ops ++ ys /\ length ys = k /\
                  forall j, j < k -> exists row op,
                    rows data !! (edges_before n + j) = Some row /\
                    ys !! j = Some op /\ edge_operation C reduction row j op)).
      { exists []. split_and!; [by rewrite app_nil_r|done|]. intros j Hj. lia. }
      intros k acc j Hj (ys & -> & Hys & Hedges).
      apply lookup_seq in Hj as [-> Hk]. simpl in Hk.
      destruct (lookup_lt_is_Some_2 (rows data) (edges_before n + k) ltac:(lia))
        as [row Hrow].
      pose proof (Forall_lookup_1 _ _ _ _ Hres Hrow) as [Hne Hlen'].
      eapply ro_conseq; [by eapply init_edge_spec|].
      intros [acc'|]; simpl; [|done]. intros (op & -> & Hop).
      exists (ys ++ [op]).
      split_and!; [by rewrite app_assoc|rewrite length_app; simpl; lia|].
      intros j Hj. destruct (decide (j = k)) as [->|].
      * exists row, op. split_and!; [done| |done].
        rewrite lookup_app_r by lia. by replace (k - length ys) with 0 by lia.
      * destruct (Hedges j ltac:(lia)) as (row' & op' & ? & ? & ?).
        exists row', op'. split_and!; [done|by apply lookup_app_l_Some|done].
    + intros ops' Hpost. simpl in Hpost. rewrite length_seq in Hpost.
      destruct Hpost as (ys & -> & Hys & Hedges).
      apply ro_ret. simpl. split; [rewrite edges_before_S; lia|].
      split; [rewrite length_app, edges_before_S; lia|].
      { intros i j Hi Hj. destruct (decide (i = n)) as [->|].
        -- destruct (Hedges j ltac:(lia)) as (row & op & ? & ? & ?).
           exists row, op. split_and!; [done| |done].
           rewrite lookup_app_r by lia.
           by replace (edges_before n + j - length ops) with j by lia.
        -- destruct (Hops i j ltac:(lia) Hj) as (row & op & ? & ? & ?).
           exists row, op. split_and!; [done|by apply lookup_app_l_Some|done]. }
    + intros Hfalse. exact Hfalse.
  - intros [ops offset] Hpost. simpl in Hpost. rewrite length_seq in Hpost.
    destruct Hpost as (_ & Hops). apply ro_ret. simpl. done.
  - intros Hfalse. exact Hfalse.
Qed.
End inner_cell.

Section inner_cell_claims.
Context `{Registry} `{ScalarOrder W}.

Lemma InnerCell_init_run (s : state W) weights data
    steps multiplier C_prev_prev C_prev C reduction reduction_prev :
  heap s !! weights = Some data ->
  edges_before (Z.to_nat steps) <= length (rows data) ->
  rows_resolvable data ->
  exists cell s',
    InnerCell.init steps multiplier C_prev_prev C_prev C reduction reduction_prev weights s
      = (Some cell, s') /\
    heap s' = heap s /\
    inner_ops data C reduction (Z.to_nat steps) (InnerCell._ops cell).
Proof.
  intros Hdata Hrows Hres.
  destruct (InnerCell_init_spec (heap s) weights data steps multiplier
              C_prev_prev C_prev C reduction reduction_prev Hdata Hrows Hres s eq_refl)
    as ([cell|] & evs & Hrun & _ & Hpost); [|done].
  exists cell. eexists. split; [exact Hrun|]. split; [done|]. apply Hpost.
Qed.

(** The single operations of an inner cell follow the stride rule of
    [Cell]: 2 on the edges from the two inputs of a reduction cell, 1
    elsewhere. *)
Lemma InnerCell_init_strides (s : state W) weights data
    steps multiplier C_prev_prev C_prev C reduction reduction_prev :
  heap s !! weights = Some data ->
  edges_before (Z.to_nat steps) <= length (rows data) ->
  rows_resolvable data ->
  exists cell s',
    InnerCell.init steps multiplier C_prev_prev C_prev C reduction reduction_prev weights s
      = (Some cell, s') /\
    forall i j, i < Z.to_nat steps -> j < i + 2 ->
      exists op,
        InnerCell._ops cell !! (edges_before i + j) = Some op /\
        op_stride op = Some (if reduction && bool_decide (j < 2) then 2%Z else 1%Z).
Proof.
  intros Hdata Hrows Hres.
  destruct (InnerCell_init_run s weights data steps multiplier C_prev_prev C_prev C
              reduction reduction_prev Hdata Hrows Hres)
    as (cell & s' & Hrun & _ & _ & Hops).
  exists cell, s'. split; [done|]. intros i j Hi Hj.
  destruct (Hops i j Hi Hj) as (row & op & _ & Hop & name & _ & ->).
  eexists. split; [done|]. by destruct (contains "pool" name).
Qed.



End inner_cell_claims.

(** ** Network construction *)

Section stack.
Context {W cell : Type}.

Lemma stack_cells_spec L (h : list (table W)) (fail : Prop) (P : cell -> Prop)
    (layers multiplier C_curr0 C : Z) (make_cell : Z -> Z -> Z -> bool -> bool -> M W cell) :
  (forall a b c r rp, ro L h (make_cell a b c r rp) (loop_post fail P)) ->
  ro L h (stack_cells layers multiplier C_curr0 C make_cell)
     (loop_post fail (fun res => Forall P res.1 /\ length res.1 = Z.to_nat layers)).
Proof.
  intros Hmake. unfold stack_cells. eapply ro_bind.
  - apply (ro_for_eachM L h _ fail
             (fun k (acc : list cell * Z * Z * Z * bool) =>
                Forall P acc.1.1.1.1 /\ length acc.1.1.1.1 = k)).
    { split; [constructor|done]. }
    intros k [[[[cells a] b] c] rp] i _ [Hcells Hlen]. simpl in Hcells, Hlen.
    eapply ro_bind; [apply Hmake| |done].
    intros x Hx. apply ro_ret. simpl. split.
    + apply Forall_app. split; [done|]. by constructor.
    + rewrite length_app. simpl. lia.
  - intros [[[[cells a] b] c] rp] Hpost. simpl in Hpost. rewrite length_seq in Hpost.
    by apply ro_ret.
  - done.
Qed.
End stack.

Section network_init.
Context `{Registry} `{Scalar W}.

Lemma num_edges_eq steps : Network.num_edges steps = edges_before (Z.to_nat steps).
Proof.
  unfold Network.num_edges. induction (Z.to_nat steps) as [|n IH]; [done|].
  rewrite seq_S, flat_map_app, sum_list_with_app, IH, edges_before_S. simpl.
  rewrite app_nil_r. f_equal.
  change (map (fun _ : nat => 1) (seq 2 n)) with ((fun _ : nat => 1) <$> seq 2 n).
  rewrite sum_list_fmap_const, length_seq. lia.
Qed.

Lemma edges_before_Z (steps : Z) :
  (0 <= steps)%Z ->
  Z.of_nat (edges_before (Z.to_nat steps)) = (steps * (steps + 3) / 2)%Z.
Proof.
  intros Hsteps. pose proof (edges_before_closed (Z.to_nat steps)) as Hc.
  apply Z.div_unique_exact; [done|]. nia.
Qed.

Lemma randn_init_run (k n : nat) (s : state W) :
  exists t,
    randn_init k n s
      = (Some (length (heap s)),
         State (heap s ++ [t]) (rng s + k * n) (log s ++ [Alloc (length (heap s))])) /\
    well_shaped k n t.
Proof.
  eexists. split; [reflexivity|]. unfold well_shaped. simpl.
  split; [done|]. split; [by rewrite length_map, length_seq|].
  apply Forall_forall. intros row Hrow.
  apply list_elem_of_fmap in Hrow as (r & -> & _). by rewrite length_map, length_seq.
Qed.

Lemma zeros_like_run (x : nat) (t : table W) (s : state W) :
  heap s !! x = Some t ->
  exists z,
    zeros_like x s
      = (Some (length (heap s)),
         State (heap s ++ [z]) (rng s) (log s ++ [Read x; Alloc (length (heap s))])).
Proof.
  intros Hx. unfold zeros_like, bind, read, alloc. rewrite Hx. simpl.
  eexists. by rewrite <- app_assoc.
Qed.

Lemma initialize_alphas_run (steps : Z) (s : state W) :
  let l := length (heap s) in
  let k := edges_before (Z.to_nat steps) in
  exists tn tr hn hr s',
    Network._initialize_alphas steps s = (Some (l, l + 1, l + 2, l + 3), s') /\
    heap s' = heap s ++ [tn; tr; hn; hr] /\
    well_shaped k (length PRIMITIVES) tn /\
    well_shaped k (length PRIMITIVES) tr.
Proof.
  intros l k. unfold Network._initialize_alphas. rewrite num_edges_eq. fold k.
  destruct (randn_init_run k (length PRIMITIVES) s) as (tn & Hn & Htn).
  unfold bind at 1. rewrite Hn. fold l.
  set (s1 := State (heap s ++ [tn]) _ _).
  destruct (randn_init_run k (length PRIMITIVES) s1) as (tr & Hr & Htr).
  unfold bind at 1. rewrite Hr.
  replace (length (heap s1)) with (l + 1) by (subst s1 l; simpl; rewrite length_app; done).
  set (s2 := State (heap s1 ++ [tr]) _ _).
  destruct (zeros_like_run l tn s2) as (hn & Hhn).
  { subst s2 s1. simpl. rewrite lookup_app_l by (rewrite length_app; simpl; lia).
    by apply list_lookup_middle. }
  unfold bind at 1. rewrite Hhn.
  replace (length (heap s2)) with (l + 2)
    by (subst s2 s1 l; simpl; rewrite !length_app; simpl; lia).
  set (s3 := State (heap s2 ++ [hn]) _ _).
  destruct (zeros_like_run (l + 1) tr s3) as (hr & Hhr).
  { subst s3 s2 s1. simpl. rewrite lookup_app_l by (rewrite !length_app; simpl; lia).
    apply list_lookup_middle. rewrite length_app. simpl. lia. }
  unfold bind at 1. rewrite Hhr.
  replace (length (heap s3)) with (l + 3)
    by (subst s3 s2 s1 l; simpl; rewrite !length_app; simpl; lia).
  exists tn, tr, hn, hr. eexists. split; [reflexivity|].
  split; [|done]. subst s3 s2 s1. simpl. by rewrite <- !app_assoc.
Qed.

Lemma Network_init_run (C num_classes layers : Z) (criterion device : string)
    (steps multiplier stem_multiplier : Z) (s : state W) :
  (forall p, p ∈ PRIMITIVES -> p ∈ OPS_keys) ->
  let l := length (heap s) in
  let k := edges_before (Z.to_nat steps) in
  exists net s' tn tr hn hr,
    Network.init C num_classes layers criterion device steps multiplier stem_multiplier s
      = (Some net, s') /\
    heap s' = heap s ++ [tn; tr; hn; hr] /\
    well_shaped k (length PRIMITIVES) tn /\
    well_shaped k (length PRIMITIVES) tr /\
    Network.alphas_normal net = l /\ Network.alphas_reduce net = l + 1 /\
    Network._C net = C /\ Network._num_classes net = num_classes /\
    Network._layers net = layers /\ Network._steps net = steps /\
    Network._multiplier net = multiplier /\
    Network._stem_multiplier net = stem_multiplier /\
    Forall (fun cell => length (Cell._ops cell) = k) (Network.cells net) /\
    length (Network.cells net) = Z.to_nat layers.
Proof.
  intros Hkeys l k. unfold Network.init.
  pose proof (stack_cells_spec [] (heap s) False
                (fun cell => length (Cell._ops cell) = k)
                layers multiplier (stem_multiplier * C)%Z C
                (fun C_prev_prev C_prev C_curr reduction reduction_prev =>
                   lift (Cell.init steps multiplier C_prev_prev C_prev C_curr
                                   reduction reduction_prev))) as Hstack.
  destruct (Hstack ltac:(
      intros a b c r rp; apply ro_lift;
      destruct (Cell_init_is_Some steps multiplier a b c r rp Hkeys) as [cell Hcell];
      rewrite Hcell; simpl; by eapply Cell_init_length) s eq_refl)
    as ([[cells C_prev]|] & evs & Hrun & Hevs & Hpost); [|done].
  simpl in Hpost. destruct Hpost as [Hcells Hlen].
  assert (evs = []) as ->.
  { destruct evs as [|e evs]; [done|]. apply Forall_cons in Hevs as [(l' & _ & Hl') _].
    by apply elem_of_nil in Hl'. }
  rewrite app_nil_r in Hrun.
  assert (State (heap s) (rng s) (log s) = s) as Hs by by destruct s.
  rewrite Hs in Hrun. unfold bind at 1. rewrite Hrun.
  destruct (initialize_alphas_run steps s) as (tn & tr & hn & hr & s' & Hinit & Hheap & Htn & Htr).
  unfold bind. rewrite Hinit. unfold ret.
  eexists _, s', tn, tr, hn, hr. split; [reflexivity|]. simpl. split_and!; done.
Qed.

(** What a construction that returned has done: the cells were stacked
    without touching the heap, and [_initialize_alphas] then appended the
    four tables. *)
Lemma Network_init_tables (C num_classes layers : Z) (criterion device : string)
    (steps multiplier stem_multiplier : Z) (s s' : state W) (net : Network.t) :
  Network.init C num_classes layers criterion device steps multiplier stem_multiplier s
    = (Some net, s') ->
  let l := length (heap s) in
  let k := edges_before (Z.to_nat steps) in
  exists tn tr hn hr,
    heap s' = heap s ++ [tn; tr; hn; hr] /\
    well_shaped k (length PRIMITIVES) tn /\
    well_shaped k (length PRIMITIVES) tr /\
    Network.alphas_normal net = l /\ Network.alphas_reduce net = l + 1 /\
    Forall (fun cell => length (Cell._ops cell) = k) (Network.cells net).
Proof.
  intros Hinit l k. unfold Network.init in Hinit.
  destruct (stack_cells_spec [] (heap s) True
              (fun cell => length (Cell._ops cell) = k)
              layers multiplier (stem_multiplier * C)%Z C
              (fun C_prev_prev C_prev C_curr reduction reduction_prev =>
                 lift (Cell.init steps multiplier C_prev_prev C_prev C_curr
                                 reduction reduction_prev))
              ltac:(intros a b c r rp; apply ro_lift;
                    destruct (Cell.init steps multiplier a b c r rp) as [cell|] eqn:Hcell;
                    simpl; [by eapply Cell_init_length|done])
              s eq_refl)
    as (o & evs & Hrun & _ & Hpost).
  unfold bind at 1 in Hinit. rewrite Hrun in Hinit.
  destruct o as [[cells C_prev]|]; [|done]. simpl in Hpost. destruct Hpost as [Hcells _].
  set (s1 := State (heap s) (rng s) (log s ++ evs)) in Hinit.
  destruct (initialize_alphas_run steps s1)
    as (tn & tr & hn & hr & s2 & Halphas & Hheap & Htn & Htr).
  unfold bind in Hinit. rewrite Halphas in Hinit. unfold ret in Hinit.
  injection Hinit as <- <-. exists tn, tr, hn, hr. simpl. split_and!; done.
Qed.

(** C4. For [steps >= 0], network construction creates two
    architecture-weight tables, [alphas_normal] and [alphas_reduce], held in
    two distinct fresh tensors; each has [sum over i < steps of (i + 2)]
    rows, which is [steps * (steps + 3) / 2] (14 for four steps), and one
    column per primitive; every cell of the network holds that many mixed
    operations. This is so whenever the constructor returns; and it
    returns when every primitive is a key of [OPS] and the widths handed to
    the torch constructors are positive ([C], [num_classes], [multiplier]
    and [stem_multiplier] positive). *)
Theorem Network_init_alpha_tables (C num_classes layers : Z) (criterion device : string)
    (steps multiplier stem_multiplier : Z) (s : state W) :
  (0 <= steps)%Z ->
  ((forall p, p ∈ PRIMITIVES -> p ∈ OPS_keys) ->
   (0 < C)%Z -> (0 < num_classes)%Z -> (0 < multiplier)%Z -> (0 < stem_multiplier)%Z ->
   exists net s',
     Network.init C num_classes layers criterion device steps multiplier stem_multiplier s
       = (Some net, s')) /\
  (forall net s',
     Network.init C num_classes layers criterion device steps multiplier stem_multiplier s
       = (Some net, s') ->
     exists tn tr,
       Network.arch_parameters net = [Network.alphas_normal net; Network.alphas_reduce net] /\
       Network.alphas_normal net <> Network.alphas_reduce net /\
       heap s !! Network.alphas_normal net = None /\
       heap s !! Network.alphas_reduce net = None /\
       heap s' !! Network.alphas_normal net = Some tn /\
       heap s' !! Network.alphas_reduce net = Some tr /\
       (let k := edges_before (Z.to_nat steps) in
        well_shaped k (length PRIMITIVES) tn /\
        well_shaped k (length PRIMITIVES) tr /\
        Z.of_nat k = (steps * (steps + 3) / 2)%Z /\
        (steps = 4%Z -> k = 14) /\
        Forall (fun cell => length (Cell._ops cell) = k) (Network.cells net))).
Proof.
  intros Hsteps. split.
  - intros Hkeys _ _ _ _.
    destruct (Network_init_run C num_classes layers criterion device steps multiplier
                stem_multiplier s Hkeys) as (net & s' & _ & _ & _ & _ & Hrun & _).
    by exists net, s'.
  - intros net s' Hrun.
    destruct (Network_init_tables _ _ _ _ _ _ _ _ _ _ _ Hrun)
      as (tn & tr & hn & hr & Hheap & Htn & Htr & Han & Har & Hcells).
    exists tn, tr. split; [done|]. rewrite Hheap, Han, Har.
    split; [lia|]. split; [apply lookup_ge_None; lia|]. split; [apply lookup_ge_None; lia|].
    split; [by rewrite list_lookup_middle|].
    split.
    { rewrite (cons_middle tn), app_assoc.
      by rewrite list_lookup_middle by (rewrite length_app; simpl; lia). }
    simpl. split_and!; [done|done|by apply edges_before_Z|by intros ->|done].
Qed.
End network_init.

(** ** The size estimator leaves the heap alone *)

Section frame.
Context `{Registry} `{Scalar W}.

Lemma ro_bind_any {A B} L (h : list (table W)) (m : M W A) (k : A -> M W B) :
  ro L h m any -> (forall a, ro L h (k a) any) -> ro L h (bind m k) any.
Proof. intros Hm Hk. eapply ro_bind; [exact Hm|auto|done]. Qed.

Lemma ro_for_eachM_any {A St} L (h : list (table W)) (body : St -> A -> M W St) xs acc :
  (forall acc x, ro L h (body acc x) any) -> ro L h (for_eachM body xs acc) any.
Proof.
  intros Hbody. eapply ro_conseq.
  - apply (ro_for_eachM L h body True (fun _ _ => True) xs acc); [done|].
    intros k acc' x _ _. eapply ro_conseq; [apply Hbody|]. by intros [?|].
  - done.
Qed.




End frame.

Lemma small_network_built :
  @Network.init small_registry Z Z_scalar 16 10 3 "criterion" "cpu" 2 2 3 empty_state
  = (Some small_network_run.1, small_network_run.2).
Proof. vm_compute. reflexivity. Qed.


(** ** The concat range of a genotype *)

Section genotype.
Context `{Registry} `{ScalarOrder W}.

Lemma range_list_elem (r : py_range) (z : Z) :
  z ∈ range_list r <-> (start r <= z < stop r)%Z.
Proof.
  unfold range_list. rewrite list_elem_of_lookup. split.
  - intros [i Hi]. apply lookup_seqZ in Hi. lia.
  - intros Hz. exists (Z.to_nat (z - start r)). apply lookup_seqZ. lia.
Qed.

Lemma parse_softmax_total ni (steps : Z) (t : table W) :
  py_index "none" PRIMITIVES = Some ni ->
  2 <= length PRIMITIVES ->
  well_shaped (edges_before (Z.to_nat steps)) (length PRIMITIVES) t ->
  is_Some (Network._parse steps (map softmax (rows t))).
Proof.
  intros Hni Hops (_ & Hrows & Hcols).
  destruct (parse_total ni (map softmax (rows t)) steps Hni Hops) as (gene & cnt & Hp & _).
  - apply Forall_forall. intros row Hrow. apply list_elem_of_fmap in Hrow as (r & -> & Hr).
    rewrite softmax_length. eapply Forall_forall in Hcols; done.
  - rewrite length_map. lia.
  - by eexists.
Qed.

(** C5. Whatever [steps] and [multiplier] are, a genotype returned by
    [genotype] carries, for the normal and for the reduce cell alike, the
    concat range [range(2 + steps - multiplier, steps + 2)]: the integers
    from [2 + steps - multiplier] up to [steps + 1], which are the last
    [multiplier] intermediate-node indices [steps - multiplier], ...,
    [steps - 1] shifted by 2. And [genotype] does return one when the two
    weight tables have one row per edge and one column per primitive. *)
Theorem Network_genotype_concat (self : Network.t) (s : state W) :
  let steps := Network._steps self in
  let multiplier := Network._multiplier self in
  (forall g cn cr s',
     Network.genotype self s = (Some (g, cn, cr), s') ->
     normal_concat g = Range (2 + steps - multiplier) (steps + 2) /\
     reduce_concat g = Range (2 + steps - multiplier) (steps + 2) /\
     range_list (normal_concat g) = Z.add 2 <$> seqZ (steps - multiplier) multiplier /\
     (forall z, z ∈ range_list (normal_concat g) <->
                (2 + steps - multiplier <= z < steps + 2)%Z))
  /\ (forall tn tr ni,
        heap s !! Network.alphas_normal self = Some tn ->
        heap s !! Network.alphas_reduce self = Some tr ->
        well_shaped (edges_before (Z.to_nat steps)) (length PRIMITIVES) tn ->
        well_shaped (edges_before (Z.to_nat steps)) (length PRIMITIVES) tr ->
        py_index "none" PRIMITIVES = Some ni ->
        2 <= length PRIMITIVES ->
        exists g cn cr s', Network.genotype self s = (Some (g, cn, cr), s')).
Proof.
  intros steps multiplier. split.
  - intros g cn cr s'. unfold Network.genotype, bind, read, lift, ret, raise. simpl.
    destruct (heap s !! Network.alphas_normal self) as [tn|]; [|done].
    destruct (Network._parse _ (map softmax (rows tn))) as [[gn cn']|]; [|done].
    simpl. destruct (heap s !! Network.alphas_reduce self) as [tr|]; [|done].
    destruct (Network._parse _ (map softmax (rows tr))) as [[gr cr']|]; [|done].
    intros [= <- _ _ _]. simpl. fold steps multiplier. split_and!; [done|done| |].
    + unfold range_list. simpl. rewrite fmap_add_seqZ. f_equal; lia.
    + intros z. by rewrite range_list_elem.
  - intros tn tr ni Hn Hr Htn Htr Hni Hops.
    destruct (parse_softmax_total ni steps tn Hni Hops Htn) as [[gn cn] Hgn].
    destruct (parse_softmax_total ni steps tr Hni Hops Htr) as [[gr cr] Hgr].
    do 3 eexists. eexists.
    unfold Network.genotype, bind, read. simpl. rewrite Hn. fold steps. rewrite Hgn. simpl.
    rewrite Hr, Hgr. simpl. reflexivity.
Qed.
End genotype.

(** ** Cloning a network *)

Lemma narrow_network_built :
  @Network.init small_registry Z Z_scalar 16 10 3 "criterion" "cpu" 4 2 3 empty_state
  = (Some narrow_network_run.1, narrow_network_run.2).
Proof. vm_compute. reflexivity. Qed.

Lemma short_network_built :
  @Network.init small_registry Z Z_scalar 16 10 3 "criterion" "cpu" 3 4 3 empty_state
  = (Some short_network_run.1, short_network_run.2).
Proof. vm_compute. reflexivity. Qed.

Lemma narrow_emnist_built :
  @EMNIST.init small_registry Z Z_scalar 16 10 3 "criterion" "cpu" 4 2 3 empty_state
  = (Some narrow_emnist_run.1, narrow_emnist_run.2).
Proof. vm_compute. reflexivity. Qed.

Section clone.
Context `{Registry} `{Scalar W}.

Lemma Network_init_fields (C num_classes layers : Z) (criterion device : string)
    (steps multiplier stem_multiplier : Z) (s s' : state W) (net : Network.t) :
  Network.init C num_classes layers criterion device steps multiplier stem_multiplier s
    = (Some net, s') ->
  Network._C net = C /\ Network._num_classes net = num_classes /\
  Network._layers net = layers /\ Network._steps net = steps /\
  Network._multiplier net = multiplier /\ Network._stem_multiplier net = stem_multiplier.
Proof.
  unfold Network.init, bind.
  destruct (stack_cells _ _ _ _ _ s) as [[[cells C_prev]|] s1]; [|done].
  destruct (Network._initialize_alphas steps s1) as [[[[[an ar] hn] hr]|] s2]; [|done].
  unfold ret. intros [= <- _]. done.
Qed.

(** Whatever the source, the clone is built with [steps = 4],
    [multiplier = 4] and [stem_multiplier = 3]. *)
Lemma Network_new_fields (self model_new : Network.t) (s s' : state W) :
  Network.new self s = (Some model_new, s') ->
  Network._C model_new = Network._C self /\
  Network._num_classes model_new = Network._num_classes self /\
  Network._layers model_new = Network._layers self /\
  Network._steps model_new = 4%Z /\
  Network._multiplier model_new = 4%Z /\
  Network._stem_multiplier model_new = 3%Z.
Proof.
  unfold Network.new. unfold bind at 1.
  destruct (Network.init _ _ _ _ _ 4 4 3 s) as [[net|] s1] eqn:Hinit; [|done].
  unfold bind. destruct (for_eachM _ _ tt s1) as [[[]|] s2]; [|done].
  unfold ret. intros [= <- _]. by apply Network_init_fields in Hinit.
Qed.


End clone.

(** C7 fails on the code. Cloning the network built with [multiplier = 2]
    succeeds and returns a network with [multiplier = 4]. *)
Theorem Network_new_resets_multiplier :
  Network._multiplier narrow_network_run.1 = 2%Z /\
  Network._multiplier <$>
    (@Network.new small_registry Z Z_scalar narrow_network_run.1 narrow_network_run.2).1
  = Some 4%Z.
Proof. split; vm_compute; reflexivity. Qed.

(** Cloning a network built with three steps raises: the clone has
    four-step tables, which the three-step tables cannot be copied into. *)
Lemma Network_new_raises_on_other_steps :
  Network._steps short_network_run.1 = 3%Z /\
  (@Network.new small_registry Z Z_scalar short_network_run.1 short_network_run.2).1 = None.
Proof. split; vm_compute; reflexivity. Qed.

(** [EMNIST.new] has the same defect, and its clone has the three-channel
    stem of [Network]. *)
Lemma EMNIST_new_resets_multiplier :
  EMNIST._multiplier narrow_emnist_run.1 = 2%Z /\
  EMNIST.stem narrow_emnist_run.1
    = Sequential (Conv2d 1 48 3 1 false) (BatchNorm2d 48 true) /\
  (fun m => (Network._multiplier m, Network.stem m)) <$>
    (@EMNIST.new small_registry Z Z_scalar narrow_emnist_run.1 narrow_emnist_run.2).1
  = Some (4%Z, Sequential (Conv2d 3 48 3 1 false) (BatchNorm2d 48 true)).
Proof. split_and!; vm_compute; reflexivity. Qed.

(** ** The statements at concrete inputs *)

Example parse_example :
  @Network._parse small_registry Z Z_scalar 2 example_weights
  = Some ([("max_pool_3x3", 1); ("sep_conv_3x3", 0);
           ("skip_connect", 1); ("max_pool_3x3", 0)]%string, 0).
Proof. vm_compute. reflexivity. Qed.

Lemma small_registry_keys :
  forall p, p ∈ @PRIMITIVES small_registry -> p ∈ @OPS_keys small_registry.
Proof. intros p Hp. simpl in *. rewrite !elem_of_cons, elem_of_nil in *. tauto. Qed.


(** C1 at [example_weights]. *)
Lemma parse_selects_top2_witness :
  exists gene cnt,
    @Network._parse small_registry Z Z_scalar 2 example_weights = Some (gene, cnt) /\
    length gene = 4 /\
    (forall i, i < 2 -> @node_selection small_registry Z Z_scalar 0 example_weights gene i) /\
    forall entry, entry ∈ gene -> entry.1 <> "none"%string.
Proof.
  destruct (@parse_selects_top2 small_registry Z Z_scalar Z_scalar_order 0 example_weights 2)
    as (gene & cnt & Hparse & Hlen & Hnodes & Hnames).
  - lia.
  - split; [reflexivity|]. intros j Hj. lia.
  - simpl. lia.
  - vm_compute. reflexivity.
  - repeat constructor.
  - exists gene, cnt. split_and!; [done..|]. apply Hnames.
    intros [|[|[|[|j]]]] Hj; simpl in Hj; done.
Defined.

(** C4 for the four-step network over the small registry. *)
Lemma Network_init_alpha_tables_witness :
  exists net s' tn tr,
    @Network.init small_registry Z Z_scalar 16 10 8 "criterion" "cpu" 4 4 3 empty_state
      = (Some net, s') /\
    heap s' !! Network.alphas_normal net = Some tn /\
    heap s' !! Network.alphas_reduce net = Some tr /\
    length (rows tn) = 14 /\ length (rows tr) = 14.
Proof.
  destruct (@Network_init_alpha_tables small_registry Z Z_scalar
              16 10 8 "criterion" "cpu" 4 4 3 empty_state ltac:(lia))
    as [Hreturns Htables].
  destruct (Hreturns small_registry_keys ltac:(lia) ltac:(lia) ltac:(lia) ltac:(lia))
    as (net & s' & Hrun).
  destruct (Htables net s' Hrun) as (tn & tr & _ & _ & _ & _ & Hn & Hr & Htn & Htr & _).
  exists net, s', tn, tr. split_and!; [done..| |].
  - apply Htn.
  - apply Htr.
Defined.

(** C5 for the small network. *)
Lemma Network_genotype_concat_witness :
  exists g cn cr s',
    @Network.genotype small_registry Z Z_scalar small_network_run.1 small_network_run.2
      = (Some (g, cn, cr), s') /\
    range_list (normal_concat g) = [2; 3]%Z /\
    reduce_concat g = normal_concat g.
Proof.
  destruct (@Network_genotype_concat small_registry Z Z_scalar Z_scalar_order
              small_network_run.1 small_network_run.2) as [Hconcat Hreturns].
  destruct (Hreturns _ _ 0 eq_refl eq_refl) as (g & cn & cr & s' & Hrun).
  - split_and!; [done|done|]. repeat constructor.
  - split_and!; [done|done|]. repeat constructor.
  - vm_compute. reflexivity.
  - simpl. lia.
  - destruct (Hconcat g cn cr s' Hrun) as (Hn & Hr & Hlist & _).
    exists g, cn, cr, s'. split_and!; [done| |congruence].
    rewrite Hlist. vm_compute. reflexivity.
Defined.



(** When [OPS] lists the two pooling operations in the other order than
    [PRIMITIVES], a row whose greatest weight belongs to "max_pool_3x3"
    makes the size estimator instantiate "avg_pool_3x3", while genotype
    extraction records "max_pool_3x3". *)
Example swapped_registry_choice :
  @chosen_name swapped_registry Z Z_scalar [0; 5; 2; 1]%Z = Some "avg_pool_3x3"%string /\
  @PRIMITIVES swapped_registry !! 1 = Some "max_pool_3x3"%string /\
  @Network.parse_edge swapped_registry Z Z_scalar [[0; 5; 2; 1]%Z] ([], 0) 0
    = Some ([("max_pool_3x3"%string, 0)], 0).
Proof. split_and!; vm_compute; reflexivity. Qed.


(** * Further properties of the code *)

(** ** The layout of the stacked cells *)

Section layout.
Context {W cell : Type}.

(** Layer [i] is built by the constructor call that receives the widths of
    the two states before it, its own width, and the two reduction
    flags. *)
Lemma stack_cells_layout L (h : list (table W)) (fail : Prop)
    (P : Z -> Z -> Z -> bool -> bool -> cell -> Prop)
    (layers multiplier C_stem C : Z) (make_cell : Z -> Z -> Z -> bool -> bool -> M W cell) :
  (forall a b c r rp, ro L h (make_cell a b c r rp) (loop_post fail (P a b c r rp))) ->
  ro L h (stack_cells layers multiplier C_stem C make_cell)
     (loop_post fail (fun res =>
        length res.1 = Z.to_nat layers /\
        res.2 = input_width layers multiplier C_stem C (Z.to_nat layers) /\
        forall i, i < Z.to_nat layers ->
          exists x, res.1 !! i = Some x /\
            P (input_width layers multiplier C_stem C (pred i))
              (input_width layers multiplier C_stem C i)
              (width_after layers C (S i))
              (is_reduction_layer layers i)
              (reduction_before layers i) x)).
Proof.
  intros Hmake. unfold stack_cells. eapply ro_bind.
  - apply (ro_for_eachM L h _ fail
             (fun k (acc : list cell * Z * Z * Z * bool) =>
                length acc.1.1.1.1 = k /\
                acc.1.1.1.2 = input_width layers multiplier C_stem C (pred k) /\
                acc.1.1.2 = input_width layers multiplier C_stem C k /\
                acc.1.2 = width_after layers C k /\
                acc.2 = reduction_before layers k /\
                forall i, i < k ->
                  exists x, acc.1.1.1.1 !! i = Some x /\
                    P (input_width layers multiplier C_stem C (pred i))
                      (input_width layers multiplier C_stem C i)
                      (width_after layers C (S i))
                      (is_reduction_layer layers i)
                      (reduction_before layers i) x)).
    { split_and!; try done. intros i Hi. lia. }
    intros k [[[[cells a] b] c] rp] i Hi (Hlen & Ha & Hb & Hc & Hrp & Hcells).
    simpl in Hlen, Ha, Hb, Hc, Hrp, Hcells.
    apply lookup_seq in Hi as [-> Hk]. simpl in Hk.
    fold (is_reduction_layer layers k).
    eapply ro_bind; [apply Hmake| |done].
    intros x Hx. apply ro_ret. simpl. split_and!.
    + rewrite length_app. simpl. lia.
    + done.
    + by subst c.
    + by subst c.
    + done.
    + intros i Hi. destruct (decide (i = k)) as [->|].
      * exists x. split.
        { rewrite lookup_app_r by lia. by replace (k - length cells) with 0 by lia. }
        subst. exact Hx.
      * destruct (Hcells i ltac:(lia)) as (y & Hy & HP).
        exists y. split; [by apply lookup_app_l_Some|done].
  - intros [[[[cells a] b] c] rp] Hpost. simpl in Hpost. rewrite length_seq in Hpost.
    destruct Hpost as (Hlen & _ & Hb & _ & _ & Hcells). by apply ro_ret.
  - done.
Qed.
End layout.

Section network_layout.
Context `{Registry} `{Scalar W}.

Lemma Cell_init_preprocess steps multiplier C_prev_prev C_prev C reduction reduction_prev cell :
  Cell.init steps multiplier C_prev_prev C_prev C reduction reduction_prev = Some cell ->
  Cell.reduction cell = reduction /\
  Cell.preprocess0 cell
    = (if reduction_prev then FactorizedReduce C_prev_prev C false
       else ReLUConvBN C_prev_prev C 1 1 0 false) /\
  Cell.preprocess1 cell = ReLUConvBN C_prev C 1 1 0 false.
Proof.
  unfold Cell.init. destruct (for_each _ _ []) as [ops|]; simpl; [|done].
  by intros [= <-].
Qed.

Lemma third_positions (layers : Z) :
  (2 <= layers)%Z -> (0 <= layers / 3 < 2 * layers / 3)%Z /\ (2 * layers / 3 < layers)%Z.
Proof.
  intros Hl.
  pose proof (Z.div_mod layers 3 ltac:(lia)). pose proof (Z.mod_pos_bound layers 3 ltac:(lia)).
  pose proof (Z.div_mod (2 * layers) 3 ltac:(lia)).
  pose proof (Z.mod_pos_bound (2 * layers) 3 ltac:(lia)). lia.
Qed.

Lemma width_after_closed (layers C : Z) (n : nat) :
  (2 <= layers)%Z ->
  width_after layers C n
  = (if decide (Z.of_nat n <= layers / 3)%Z then C
     else if decide (Z.of_nat n <= 2 * layers / 3)%Z then C * 2
     else C * 4)%Z.
Proof.
  intros Hl. destruct (third_positions layers Hl) as [Hab Hb].
  induction n as [|n IH]; simpl.
  - rewrite decide_True by lia. done.
  - rewrite IH. unfold is_reduction_layer.
    repeat case_bool_decide; repeat case_decide; lia.
Qed.

Lemma Network_init_built (C num_classes layers : Z) (criterion device : string)
    (steps multiplier stem_multiplier : Z) (s s' : state W) (net : Network.t) :
  Network.init C num_classes layers criterion device steps multiplier stem_multiplier s
    = (Some net, s') ->
  let C_stem := (stem_multiplier * C)%Z in
  let width := width_after layers C in
  let input := input_width layers multiplier C_stem C in
  length (Network.cells net) = Z.to_nat layers /\
  Network.stem net = Sequential (Conv2d 3 C_stem 3 1 false) (BatchNorm2d C_stem true) /\
  Network.classifier net = Linear (input (Z.to_nat layers)) num_classes /\
  forall i, i < Z.to_nat layers ->
    exists cell,
      Network.cells net !! i = Some cell /\
      Cell.init steps multiplier (input (pred i)) (input i) (width (S i))
                (is_reduction_layer layers i) (reduction_before layers i) = Some cell.
Proof.
  intros Hinit C_stem width input. unfold Network.init in Hinit.
  destruct (stack_cells_layout [] (heap s) True
              (fun a b c r rp cell => Cell.init steps multiplier a b c r rp = Some cell)
              layers multiplier C_stem C
              (fun a b c r rp => lift (Cell.init steps multiplier a b c r rp))
              ltac:(intros a b c r rp; apply ro_lift;
                    by destruct (Cell.init steps multiplier a b c r rp))
              s eq_refl)
    as (o & evs & Hrun & _ & Hpost).
  unfold bind at 1 in Hinit. fold C_stem in Hinit. rewrite Hrun in Hinit.
  destruct o as [[cells C_prev]|]; [|done]. simpl in Hpost.
  destruct Hpost as (Hlen & HC & Hcells).
  unfold bind in Hinit.
  destruct (Network._initialize_alphas steps _) as [[[[[an ar] hn] hr]|] s2]; [|done].
  unfold ret in Hinit. injection Hinit as <- _. simpl.
  split_and!; [done|done|by rewrite HC|done].
Qed.

(** A network is [layers] cells long. The cells at positions [layers // 3]
    and [2 * layers // 3] are the reduction cells; the width doubles at
    each of them; a cell preprocesses its first input with a factorized
    reduction exactly when the cell before it is a reduction cell; and the
    classifier reads [multiplier] times the last width. *)
Theorem Network_init_layout (C num_classes layers : Z) (criterion device : string)
    (steps multiplier stem_multiplier : Z) (s s' : state W) (net : Network.t) :
  Network.init C num_classes layers criterion device steps multiplier stem_multiplier s
    = (Some net, s') ->
  let C_stem := (stem_multiplier * C)%Z in
  let width := width_after layers C in
  let input := input_width layers multiplier C_stem C in
  length (Network.cells net) = Z.to_nat layers /\
  Network.stem net = Sequential (Conv2d 3 C_stem 3 1 false) (BatchNorm2d C_stem true) /\
  Network.classifier net = Linear (input (Z.to_nat layers)) num_classes /\
  forall i, i < Z.to_nat layers ->
    exists cell,
      Network.cells net !! i = Some cell /\
      Cell.reduction cell = is_reduction_layer layers i /\
      Cell.preprocess0 cell
        = (if reduction_before layers i
           then FactorizedReduce (input (pred i)) (width (S i)) false
           else ReLUConvBN (input (pred i)) (width (S i)) 1 1 0 false) /\
      Cell.preprocess1 cell = ReLUConvBN (input i) (width (S i)) 1 1 0 false /\
      length (Cell._ops cell) = edges_before (Z.to_nat steps).
Proof.
  intros Hinit C_stem width input.
  destruct (Network_init_built _ _ _ _ _ _ _ _ _ _ _ Hinit) as (Hlen & Hstem & Hcls & Hcells).
  split_and!; [done..|].
  intros i Hi. destruct (Hcells i Hi) as (cell & Hcell & Hbuilt).
  exists cell. split; [done|].
  destruct (Cell_init_preprocess _ _ _ _ _ _ _ _ Hbuilt) as (Hr & Hp0 & Hp1).
  split_and!; [done..|]. by eapply Cell_init_length.
Qed.

(** With two layers or more there are exactly two reduction cells, at two
    different positions, and the classifier of the network reads
    [multiplier * 4 * C] channels. *)
Theorem Network_init_classifier_width (C num_classes layers : Z) (criterion device : string)
    (steps multiplier stem_multiplier : Z) (s s' : state W) (net : Network.t) :
  (2 <= layers)%Z ->
  Network.init C num_classes layers criterion device steps multiplier stem_multiplier s
    = (Some net, s') ->
  Network.classifier net = Linear (multiplier * (C * 4)) num_classes /\
  (forall i cell, Network.cells net !! i = Some cell ->
     (Cell.reduction cell = true <->
      Z.of_nat i = (layers / 3)%Z \/ Z.of_nat i = (2 * layers / 3)%Z)) /\
  (layers / 3 < 2 * layers / 3 < layers)%Z.
Proof.
  intros Hl Hinit. destruct (third_positions layers Hl) as [Hab Hb].
  destruct (Network_init_built _ _ _ _ _ _ _ _ _ _ _ Hinit) as (Hlen & _ & Hcls & Hcells).
  split_and!; [|..|lia|lia].
  - rewrite Hcls. unfold input_width.
    destruct (Z.to_nat layers) as [|n] eqn:Hn; [lia|].
    rewrite width_after_closed by done.
    rewrite !decide_False by lia. done.
  - intros i cell Hi. pose proof (lookup_lt_Some _ _ _ Hi) as Hlt. rewrite Hlen in Hlt.
    destruct (Hcells i Hlt) as (cell' & Hi' & Hbuilt).
    assert (cell' = cell) as -> by congruence.
    destruct (Cell_init_preprocess _ _ _ _ _ _ _ _ Hbuilt) as (Hr & _). rewrite Hr.
    unfold is_reduction_layer. by rewrite bool_decide_eq_true.
Qed.
End network_layout.

(** The layout of the three-layer small network. *)
Lemma Network_init_layout_witness :
  length (Network.cells small_network_run.1) = 3 /\
  Network.classifier small_network_run.1 = Linear 128 10.
Proof.
  destruct (@Network_init_layout small_registry Z Z_scalar 16 10 3 "criterion" "cpu" 2 2 3
              empty_state small_network_run.2 small_network_run.1 small_network_built)
    as (Hlen & _ & Hcls & _).
  split; [exact Hlen|exact Hcls].
Defined.

(** The classifier width of the three-layer small network. *)
Lemma Network_init_classifier_width_witness :
  Network.classifier small_network_run.1 = Linear (2 * (16 * 4)) 10.
Proof.
  exact (proj1 (@Network_init_classifier_width small_registry Z Z_scalar
                  16 10 3 "criterion" "cpu" 2 2 3
                  empty_state small_network_run.2 small_network_run.1
                  ltac:(lia) small_network_built)).
Defined.

(** ** Construction with a primitive that [OPS] lacks *)

Section missing_primitive.
Context `{Registry}.

Lemma MixedOp_init_None (C stride : Z) :
  MixedOp.init C stride = None <-> exists p, p ∈ PRIMITIVES /\ p ∉ OPS_keys.
Proof.
  unfold MixedOp.init.
  destruct (mapM _ PRIMITIVES) as [ops|] eqn:Hops; simpl.
  - split; [done|]. intros (p & Hp & Hmissing). exfalso.
    apply mapM_Some in Hops. apply list_elem_of_lookup in Hp as [k Hk].
    destruct (Forall2_lookup_l _ _ _ _ _ Hops Hk) as (op & _ & Hop).
    unfold MixedOp.OPS in Hop. by rewrite decide_False in Hop.
  - split; [intros _|done]. apply mapM_None, Exists_exists in Hops as (p & Hp & Hnone).
    exists p. split; [done|]. unfold MixedOp.OPS in Hnone.
    destruct (decide (p ∈ OPS_keys)); [done|done].
Qed.

(** [MixedOp.__init__] raises when some primitive is not a key of [OPS].
    When it returns, the mixed operation holds one candidate per primitive,
    in the order of [PRIMITIVES]: the [OPS] entry of that name built with
    the given width and stride and without affine parameters, followed by a
    batch normalisation when the name contains "pool". *)
Theorem MixedOp_init_outcome (C stride : Z) :
  ((exists p, p ∈ PRIMITIVES /\ p ∉ OPS_keys) -> MixedOp.init C stride = None) /\
  (forall m, MixedOp.init C stride = Some m ->
     length (MixedOp._ops m) = length PRIMITIVES /\
     forall k name, PRIMITIVES !! k = Some name ->
       MixedOp._ops m !! k
       = Some (if contains "pool" name
               then Sequential (Op name C stride false) (BatchNorm2d C false)
               else Op name C stride false)).
Proof.
  split; [apply MixedOp_init_None|].
  intros m Hinit. split; [by eapply MixedOp_init_length|].
  intros k name Hname.
  destruct (lookup_lt_is_Some_2 (MixedOp._ops m) k) as [op Hop].
  { erewrite MixedOp_init_length by done. by eapply lookup_lt_Some. }
  destruct (MixedOp_init_lookup _ _ _ _ _ Hinit Hop) as (name' & Hname' & _ & Heq).
  assert (name' = name) as -> by congruence. by rewrite Hop, Heq.
Qed.

Lemma Cell_init_missing steps multiplier C_prev_prev C_prev C reduction reduction_prev p :
  p ∈ PRIMITIVES -> p ∉ OPS_keys -> (0 < steps)%Z ->
  Cell.init steps multiplier C_prev_prev C_prev C reduction reduction_prev = None.
Proof.
  intros Hp Hmissing Hsteps. unfold Cell.init. rewrite for_each_append_nested.
  assert (mapM (fun i => mapM (fun j => MixedOp.init C (Cell.edge_stride reduction j))
                              (seq 0 (2 + i)))
               (seq 0 (Z.to_nat steps)) = None) as ->; [|done].
  apply mapM_None, Exists_exists. exists 0. split; [apply elem_of_seq; lia|].
  apply mapM_None, Exists_exists. exists 0. split; [apply elem_of_seq; lia|].
  apply (MixedOp_init_None C (Cell.edge_stride reduction 0)). by exists p.
Qed.

Context `{Scalar W}.

(** When some primitive is not a key of [OPS], constructing a network with
    at least one layer and one step raises while the first cell is built:
    no tensor has been allocated and the state is as before. *)
Theorem Network_init_missing_primitive (C num_classes layers : Z) (criterion device : string)
    (steps multiplier stem_multiplier : Z) (s : state W) (p : string) :
  p ∈ PRIMITIVES -> p ∉ OPS_keys -> (0 < layers)%Z -> (0 < steps)%Z ->
  Network.init C num_classes layers criterion device steps multiplier stem_multiplier s
  = (None, s).
Proof.
  intros Hp Hmissing Hlayers Hsteps. unfold Network.init, stack_cells.
  destruct (Z.to_nat layers) as [|n] eqn:Hn; [lia|].
  cbn [seq for_eachM]. unfold bind.
  rewrite (Cell_init_missing steps multiplier _ _ _ _ _ p Hp Hmissing Hsteps). done.
Qed.
End missing_primitive.

(** A registry whose [OPS] has no "sep_conv_3x3". *)
Lemma Network_init_missing_primitive_witness :
  @Network.init (Build_Registry ["none"; "sep_conv_3x3"] ["none"]) Z Z_scalar
     16 10 3 "criterion" "cpu" 2 2 3 empty_state
  = (None, empty_state).
Proof.
  apply (@Network_init_missing_primitive (Build_Registry ["none"; "sep_conv_3x3"] ["none"])
           Z Z_scalar 16 10 3 "criterion" "cpu" 2 2 3 empty_state "sep_conv_3x3").
  - simpl. rewrite !elem_of_cons. auto.
  - simpl. rewrite !elem_of_cons, elem_of_nil. intros [Heq|[]]. discriminate.
  - lia.
  - lia.
Defined.

(** [MixedOp.__init__] over the small registry, and over a registry whose
    [OPS] has no "sep_conv_3x3". *)
Lemma MixedOp_init_outcome_witness :
  (exists m,
     @MixedOp.init small_registry 16 2 = Some m /\
     MixedOp._ops m !! 1
     = Some (Sequential (Op "max_pool_3x3" 16 2 false) (BatchNorm2d 16 false))) /\
  @MixedOp.init (Build_Registry ["none"; "sep_conv_3x3"] ["none"]) 16 2 = None.
Proof.
  split.
  - destruct (@MixedOp_init_outcome small_registry 16 2) as (_ & Hsome).
    eexists. split; [vm_compute; reflexivity|].
    lazymatch goal with
    | |- MixedOp._ops ?m !! _ = _ =>
        exact (proj2 (Hsome m eq_refl) 1 "max_pool_3x3"%string eq_refl)
    end.
  - apply (@MixedOp_init_outcome (Build_Registry ["none"; "sep_conv_3x3"] ["none"]) 16 2).
    exists "sep_conv_3x3"%string. simpl. split.
    + rewrite !elem_of_cons. auto.
    + rewrite !elem_of_cons, elem_of_nil. intros [Heq|[]]. discriminate.
Defined.

(** ** Tables with too few rows *)

Lemma for_each_app {A St} (body : St -> A -> option St) xs ys acc :
  for_each body (xs ++ ys) acc = (acc' ← for_each body xs acc; for_each body ys acc').
Proof.
  revert acc. induction xs as [|x xs IH]; intros acc; simpl; [done|].
  destruct (body acc x); simpl; [apply IH|done].
Qed.

(** A table shorter than [edges_before n] runs out inside the group of
    some node [i] below [n]. *)
Lemma edges_before_bracket (len n : nat) :
  len < edges_before n -> exists i, i < n /\ edges_before i <= len < edges_before (S i).
Proof.
  induction n as [|n IH]; intros Hlen; [change (edges_before 0) with 0 in Hlen; lia|].
  destruct (decide (len < edges_before n)) as [Hlt|Hge].
  - destruct (IH Hlt) as (i & Hi & Hb). exists i. split; [lia|done].
  - exists n. split; [lia|]. lia.
Qed.

Lemma seq_split_at (n i : nat) : i < n -> seq 0 n = seq 0 i ++ i :: seq (S i) (n - S i).
Proof.
  intros Hi. replace n with (i + S (n - S i)) at 1 by lia. by rewrite seq_app.
Qed.

Section short_tables.
Context `{Registry} `{Scalar W}.

Lemma parse_loop_shape (weights : list (list W)) n gene a b cnt :
  for_each (Network.parse_node weights) (seq 0 n) ([], 2, 0, 0) = Some (gene, a, b, cnt) ->
  a = n + 2 /\ b = edges_before n.
Proof.
  revert gene a b cnt. induction n as [|n IH]; intros gene a b cnt.
  - simpl. by intros [= <- <- <- <-].
  - rewrite seq_S, for_each_snoc. simpl.
    destruct (for_each _ (seq 0 n) _) as [[[[g a'] b'] c']|] eqn:Hloop; simpl; [|done].
    destruct (IH _ _ _ _ eq_refl) as [-> ->].
    unfold Network.parse_node.
    destruct (sorted _ _) as [ranked|]; simpl; [|done].
    destruct (for_each _ (take 2 ranked) _) as [[g' c'']|]; simpl; [|done].
    intros [= <- <- <- <-]. rewrite edges_before_S. lia.
Qed.

(** [_parse] raises on a table with fewer rows than the cell has edges. *)
Theorem parse_raises_on_short_table (steps : Z) (weights : list (list W)) :
  length weights < edges_before (Z.to_nat steps) ->
  Network._parse steps weights = None.
Proof.
  intros Hshort.
  destruct (edges_before_bracket _ _ Hshort) as (i & Hi & Hlo & Hhi).
  unfold Network._parse. rewrite (seq_split_at _ i Hi), for_each_app.
  destruct (for_each _ (seq 0 i) _) as [[[[g a] b] c]|] eqn:Hloop; [|done].
  destruct (parse_loop_shape _ _ _ _ _ _ Hloop) as [-> ->].
  cbn [mbind option_bind for_each].
  assert (Network.parse_node weights (g, i + 2, edges_before i, c) i = None) as ->; [|done].
  unfold Network.parse_node, sorted.
  replace (edges_before i + (i + 2) - edges_before i) with (i + 2) by lia.
  set (Wn := take (i + 2) (drop (edges_before i) weights)).
  assert (mapM (Network.edge_key Wn) (seq 0 (i + 2)) = None) as ->; [|done].
  apply mapM_None, Exists_exists. exists (length weights - edges_before i).
  rewrite edges_before_S in Hhi. split; [apply elem_of_seq; lia|].
  unfold Network.edge_key.
  assert (Wn !! (length weights - edges_before i) = None) as ->; [|done].
  apply lookup_ge_None. subst Wn. rewrite length_take, length_drop. lia.
Qed.

(** [_parse] raises, for one step or more, when [PRIMITIVES] has no "none"
    entry, whatever the weights. *)
Theorem parse_raises_without_none (steps : Z) (weights : list (list W)) :
  (1 <= steps)%Z ->
  py_index "none" PRIMITIVES = None ->
  Network._parse steps weights = None.
Proof.
  intros Hsteps Hnone. unfold Network._parse.
  destruct (Z.to_nat steps) as [|n] eqn:Hn; [lia|].
  cbn [seq for_each].
  assert (forall acc, Network.parse_node weights acc 0 = None) as ->; [|done].
  intros [[[g a] b] c]. unfold Network.parse_node, sorted.
  assert (forall Wn, mapM (Network.edge_key Wn) (seq 0 (0 + 2)) = None) as ->; [|done].
  intros Wn. apply mapM_None, Exists_exists. exists 0. split; [apply elem_of_seq; lia|].
  unfold Network.edge_key. rewrite Hnone. by destruct (Wn !! 0).
Qed.

Context `{Tensor W T}.

Lemma forward_loop_shape (c : Cell.t) (weights : list (list W)) (s0 s1 : T) n states offset :
  for_each (Cell.forward_step c weights) (seq 0 n) ([s0; s1], 0) = Some (states, offset) ->
  length states = n + 2 /\ offset = edges_before n.
Proof.
  revert states offset. induction n as [|n IH]; intros states offset.
  - simpl. by intros [= <- <-].
  - rewrite seq_S, for_each_snoc. simpl.
    destruct (for_each _ (seq 0 n) _) as [[st off]|] eqn:Hloop; simpl; [|done].
    destruct (IH _ _ eq_refl) as [Hlen ->].
    unfold Cell.forward_step. destruct (mapM _ (imap pair st)) as [terms|]; simpl; [|done].
    intros [= <- <-]. rewrite length_app, edges_before_S. simpl. lia.
Qed.

(** [Cell.forward] raises when the weight table, or the cell's list of
    mixed operations, has fewer entries than the cell has edges. *)
Theorem Cell_forward_raises_on_short_table (c : Cell.t) (s0 s1 : T)
    (weights : list (list W)) :
  length weights < edges_before (Z.to_nat (Cell._steps c)) \/
  length (Cell._ops c) < edges_before (Z.to_nat (Cell._steps c)) ->
  Cell.forward c s0 s1 weights = None.
Proof.
  intros Hshort.
  set (len := Nat.min (length weights) (length (Cell._ops c))).
  destruct (edges_before_bracket len (Z.to_nat (Cell._steps c)) ltac:(lia))
    as (i & Hi & Hlo & Hhi).
  unfold Cell.forward. rewrite (seq_split_at _ i Hi), for_each_app.
  destruct (for_each _ (seq 0 i) _) as [[states offset]|] eqn:Hloop; [|done].
  destruct (forward_loop_shape _ _ _ _ _ _ _ Hloop) as [Hlen ->].
  cbn [mbind option_bind for_each].
  assert (Cell.forward_step c weights (states, edges_before i) i = None) as ->; [|done].
  unfold Cell.forward_step.
  assert (mapM (fun '(j, h) =>
            op ← Cell._ops c !! (edges_before i + j);
            w ← weights !! (edges_before i + j);
            Some (MixedOp.forward op h w)) (imap pair states) = None) as ->; [|done].
  rewrite edges_before_S in Hhi.
  destruct (lookup_lt_is_Some_2 states (len - edges_before i) ltac:(lia)) as [h Hh].
  apply mapM_None, Exists_exists. exists (len - edges_before i, h). split.
  - apply list_elem_of_lookup. exists (len - edges_before i).
    by rewrite list_lookup_imap, Hh.
  - replace (edges_before i + (len - edges_before i)) with len by lia.
    destruct (Nat.min_spec (length weights) (length (Cell._ops c))) as [[_ Hmin]|[_ Hmin]].
    + rewrite (lookup_ge_None_2 weights len) by lia. by destruct (Cell._ops c !! len).
    + by rewrite (lookup_ge_None_2 (Cell._ops c) len) by lia.
Qed.
End short_tables.

(** [_parse] on four rows where two steps need five. *)
Lemma parse_raises_on_short_table_witness :
  @Network._parse small_registry Z Z_scalar 2 (take 4 example_weights) = None.
Proof.
  apply (@parse_raises_on_short_table small_registry Z Z_scalar 2 (take 4 example_weights)).
  vm_compute. lia.
Defined.

(** [_parse] over a registry without "none". *)
Lemma parse_raises_without_none_witness :
  @Network._parse (Build_Registry ["skip_connect"; "sep_conv_3x3"] []) Z Z_scalar
     2 (replicate 5 [1; 2]%Z) = None.
Proof.
  apply (@parse_raises_without_none (Build_Registry ["skip_connect"; "sep_conv_3x3"] [])
           Z Z_scalar 2 (replicate 5 [1; 2]%Z)).
  - lia.
  - vm_compute. reflexivity.
Defined.

(** [Cell.forward] of a two-step cell on a four-row table. *)
Lemma Cell_forward_raises_on_short_table_witness :
  exists c,
    @Cell.init small_registry 2 2 8 8 4 false false = Some c /\
    @Cell.forward Z Z Z_tensor c 3%Z 4%Z (replicate 4 [0; 1; 2; 1]%Z) = None.
Proof.
  eexists. split; [vm_compute; reflexivity|].
  apply (@Cell_forward_raises_on_short_table Z Z Z_tensor).
  left. vm_compute. lia.
Defined.

(** ** The convolution counter of [_parse] *)

Lemma for_each_invariant {A St} (body : St -> A -> option St) (I : St -> Prop) xs :
  (forall acc x acc', I acc -> body acc x = Some acc' -> I acc') ->
  forall acc r, I acc -> for_each body xs acc = Some r -> I r.
Proof.
  intros Hbody. induction xs as [|x xs IH]; intros acc r Hacc; simpl.
  - by intros [= <-].
  - destruct (body acc x) as [acc'|] eqn:Hx; simpl; [|done]. eauto.
Qed.

Section cnn_count.
Context `{Registry} `{Scalar W}.

Lemma py_index_lookup (name : string) (k : nat) :
  NoDup PRIMITIVES -> PRIMITIVES !! k = Some name -> py_index name PRIMITIVES = Some k.
Proof.
  intros Hnodup Hk. unfold py_index.
  assert (list_find (fun y => y = name) PRIMITIVES = Some (k, name)) as ->; [|done].
  apply list_find_Some. split_and!; [done|done|].
  intros j y Hj Hlt ->. pose proof (NoDup_lookup _ _ _ _ Hnodup Hj Hk). lia.
Qed.

Lemma parse_edge_count (Wn : list (list W)) gene cnt j gene' cnt' :
  NoDup PRIMITIVES ->
  Network.parse_edge Wn (gene, cnt) j = Some (gene', cnt') ->
  cnt = length (List.filter cnn_entry gene) ->
  cnt' = length (List.filter cnn_entry gene').
Proof.
  intros Hnodup. unfold Network.parse_edge.
  destruct (Wn !! j) as [row|]; simpl; [|done].
  destruct (py_index "none" PRIMITIVES) as [ni|]; simpl; [|done].
  destruct (scan_best _ 0 row None) as [[k w]|]; simpl; [|done].
  destruct (PRIMITIVES !! k) as [name|] eqn:Hname; simpl; [|done].
  intros [= <- <-] ->.
  assert (cnn_entry (name, j) = Network._isCNNStructure k) as Hentry.
  { unfold cnn_entry. simpl. by rewrite (py_index_lookup name k Hnodup Hname). }
  rewrite List.filter_app, length_app.
  change (List.filter cnn_entry [(name, j)])
    with (if cnn_entry (name, j) then [(name, j)] else []).
  rewrite Hentry. destruct (Network._isCNNStructure k); simpl; lia.
Qed.

(** The counter that [_parse] returns beside the gene is the number of
    gene entries whose operation has index 4 or more in [PRIMITIVES]
    (entries being told apart by name, [PRIMITIVES] must not repeat one). *)
Theorem parse_cnn_structure_count (steps : Z) (weights : list (list W)) gene cnt :
  NoDup PRIMITIVES ->
  Network._parse steps weights = Some (gene, cnt) ->
  cnt = length (List.filter cnn_entry gene) /\ cnt <= length gene.
Proof.
  intros Hnodup. unfold Network._parse.
  destruct (for_each _ _ _) as [[[[g a] b] c]|] eqn:Hloop; simpl; [|done].
  intros [= <- <-].
  assert (c = length (List.filter cnn_entry g)) as Hc.
  { refine (for_each_invariant (Network.parse_node weights)
              (fun acc => acc.2 = length (List.filter cnn_entry acc.1.1.1)) _ _
              ([], 2, 0, 0) (g, a, b, c) eq_refl Hloop).
    intros [[[g0 a0] b0] c0] i [[[g1 a1] b1] c1] Hacc. simpl in Hacc.
    unfold Network.parse_node.
    destruct (sorted _ _) as [ranked|]; simpl; [|done].
    destruct (for_each _ (take 2 ranked) _) as [[g2 c2]|] eqn:Hedges; simpl; [|done].
    intros [= <- _ _ <-].
    refine (for_each_invariant _
              (fun acc : list (string * nat) * nat =>
                 acc.2 = length (List.filter cnn_entry acc.1)) _ _
              (g0, c0) (g2, c2) Hacc Hedges).
    intros [g3 c3] j [g4 c4] Hacc3 Hedge. simpl in *.
    by eapply parse_edge_count. }
  split; [done|]. rewrite Hc. apply List.filter_length_le.
Qed.
End cnn_count.

(** The counter for a registry with a fifth primitive. *)
Lemma parse_cnn_structure_count_witness :
  exists gene,
    @Network._parse
       (Build_Registry ["none"; "max_pool_3x3"; "avg_pool_3x3"; "skip_connect"; "sep_conv_3x3"]
                       [])
       Z Z_scalar 1 [[0; 1; 2; 3; 9]; [0; 8; 2; 3; 1]]%Z
    = Some (gene, 1).
Proof.
  set (R := Build_Registry
              ["none"; "max_pool_3x3"; "avg_pool_3x3"; "skip_connect"; "sep_conv_3x3"] []).
  destruct (@Network._parse R Z Z_scalar 1 [[0; 1; 2; 3; 9]; [0; 8; 2; 3; 1]]%Z)
    as [[gene cnt]|] eqn:Hparse; [|by vm_compute in Hparse].
  destruct (@parse_cnn_structure_count R Z Z_scalar 1
              [[0; 1; 2; 3; 9]; [0; 8; 2; 3; 1]]%Z gene cnt) as [Hcnt _].
  - apply NoDup_ListNoDup. vm_compute. repeat constructor; simpl; intuition discriminate.
  - exact Hparse.
  - exists gene. rewrite Hcnt. vm_compute in Hparse. injection Hparse as <- _.
    reflexivity.
Defined.

(** ** What [genotype] and [forward] do to the tables *)

Section readers.
Context `{Registry} `{Scalar W}.

Lemma log_only_reads (self : Network.t) {A} (m : M W A) (s : state W) :
  ro (Network.arch_parameters self) (heap s) m any ->
  heap (m s).2 = heap s /\ rng (m s).2 = rng s /\
  exists evs,
    log (m s).2 = log s ++ evs /\
    Forall (fun e => e = Read (Network.alphas_normal self) \/
                     e = Read (Network.alphas_reduce self)) evs.
Proof.
  intros Hro. destruct (Hro s eq_refl) as (o & evs & Hrun & Hevs & _).
  rewrite Hrun. simpl. split_and!; [done..|].
  exists evs. split; [done|]. eapply Forall_impl; [exact Hevs|].
  intros e (l & -> & Hl). unfold Network.arch_parameters in Hl.
  rewrite !elem_of_cons, elem_of_nil in Hl. destruct Hl as [->|[->|[]]]; auto.
Qed.

(** [genotype] only reads: whether it returns or raises, no tensor is
    written or allocated, the random stream is not advanced, and the only
    tensors read are [alphas_normal] and [alphas_reduce]. *)
Theorem Network_genotype_frame (self : Network.t) (s : state W) :
  let s' := (Network.genotype self s).2 in
  heap s' = heap s /\ rng s' = rng s /\
  exists evs,
    log s' = log s ++ evs /\
    Forall (fun e => e = Read (Network.alphas_normal self) \/
                     e = Read (Network.alphas_reduce self)) evs.
Proof.
  apply log_only_reads. unfold Network.genotype, Network.arch_parameters.
  apply ro_bind_any; [apply ro_read; [rewrite !elem_of_cons; auto|done]|]. intros tn.
  apply ro_bind_any; [by apply ro_lift|]. intros [gn cn].
  apply ro_bind_any; [apply ro_read; [rewrite !elem_of_cons; auto|done]|]. intros tr.
  apply ro_bind_any; [by apply ro_lift|]. intros [gr cr].
  by apply ro_ret.
Qed.

Context `{Tensor W T}.

Lemma forward_cell_ro (self : Network.t) (h : list (table W)) (acc : T * T) (cell : Cell.t) :
  ro (Network.arch_parameters self) h (Network.forward_cell self acc cell) any.
Proof.
  unfold Network.forward_cell, Network.arch_parameters. destruct acc as [s0 s1].
  apply ro_bind_any.
  - apply ro_read; [|done]. destruct (Cell.reduction cell); rewrite !elem_of_cons; auto.
  - intros alphas. apply ro_bind_any; [by apply ro_lift|]. intros out. by apply ro_ret.
Qed.

(** A forward pass of the search network only reads the two weight tables:
    it writes and allocates no tensor held by reference, whether it returns
    or raises. *)
Theorem Network_forward_frame (view : T -> T) (self : Network.t) (input : T) (s : state W) :
  let s' := (Network.forward view self input s).2 in
  heap s' = heap s /\ rng s' = rng s /\
  exists evs,
    log s' = log s ++ evs /\
    Forall (fun e => e = Read (Network.alphas_normal self) \/
                     e = Read (Network.alphas_reduce self)) evs.
Proof.
  apply log_only_reads. unfold Network.forward.
  apply ro_bind_any.
  - apply ro_for_eachM_any. intros acc cell. apply forward_cell_ro.
  - intros [s0 s1]. by apply ro_ret.
Qed.
End readers.

(** ** The states a cell concatenates *)

Section degenerate_multiplier.
Context `{Registry} `{Scalar W} `{Tensor W T}.

End degenerate_multiplier.


(** ** Fresh architecture parameters *)

Section fresh_parameters.
Context `{Registry} `{Scalar W}.

End fresh_parameters.

(** ** The layout of an [EMNIST] network *)

Section emnist.
Context `{Registry} `{Scalar W}.

(** [EMNIST.__init__], when it returns, has built what [Network.__init__]
    builds, behind a stem that takes one input channel instead of three:
    [layers] cells with the reduction cells at [layers // 3] and
    [2 * layers // 3], the widths doubling there, the same preprocessing
    and one mixed operation per edge in every cell, a classifier that reads
    [multiplier] times the last width, and two distinct weight tables with
    a row per edge and a column per primitive. *)
Theorem EMNIST_init_layout (C num_classes layers : Z) (criterion device : string)
    (steps multiplier stem_multiplier : Z) (s s' : state W) (net : EMNIST.t) :
  EMNIST.init C num_classes layers criterion device steps multiplier stem_multiplier s
    = (Some net, s') ->
  let C_stem := (stem_multiplier * C)%Z in
  let width := width_after layers C in
  let input := input_width layers multiplier C_stem C in
  let k := edges_before (Z.to_nat steps) in
  EMNIST.stem net = Sequential (Conv2d 1 C_stem 3 1 false) (BatchNorm2d C_stem true) /\
  length (EMNIST.cells net) = Z.to_nat layers /\
  EMNIST.classifier net = Linear (input (Z.to_nat layers)) num_classes /\
  (forall i, i < Z.to_nat layers ->
     exists cell,
       EMNIST.cells net !! i = Some cell /\
       Cell.reduction cell = is_reduction_layer layers i /\
       Cell.preprocess0 cell
         = (if reduction_before layers i
            then FactorizedReduce (input (pred i)) (width (S i)) false
            else ReLUConvBN (input (pred i)) (width (S i)) 1 1 0 false) /\
       Cell.preprocess1 cell = ReLUConvBN (input i) (width (S i)) 1 1 0 false /\
       length (Cell._ops cell) = k) /\
  exists tn tr,
    EMNIST.alphas_normal net <> EMNIST.alphas_reduce net /\
    heap s !! EMNIST.alphas_normal net = None /\
    heap s !! EMNIST.alphas_reduce net = None /\
    heap s' !! EMNIST.alphas_normal net = Some tn /\
    heap s' !! EMNIST.alphas_reduce net = Some tr /\
    well_shaped k (length PRIMITIVES) tn /\
    well_shaped k (length PRIMITIVES) tr.
Proof.
  intros Hinit C_stem width input k. unfold EMNIST.init in Hinit.
  destruct (stack_cells_layout [] (heap s) True
              (fun a b c r rp cell => Cell.init steps multiplier a b c r rp = Some cell)
              layers multiplier C_stem C
              (fun a b c r rp => lift (Cell.init steps multiplier a b c r rp))
              ltac:(intros a b c r rp; apply ro_lift;
                    by destruct (Cell.init steps multiplier a b c r rp))
              s eq_refl)
    as (o & evs & Hrun & _ & Hpost).
  unfold bind at 1 in Hinit. fold C_stem in Hinit. rewrite Hrun in Hinit.
  destruct o as [[cells C_prev]|]; [|done]. simpl in Hpost.
  destruct Hpost as (Hlen & HC & Hcells).
  set (s1 := State (heap s) (rng s) (log s ++ evs)) in Hinit.
  destruct (initialize_alphas_run steps s1)
    as (tn & tr & hn & hr & s2 & Halphas & Hheap & Htn & Htr).
  unfold bind in Hinit. rewrite Halphas in Hinit. unfold ret in Hinit.
  injection Hinit as <- <-. simpl. split_and!; [done|done|by rewrite HC| |].
  - intros i Hi. destruct (Hcells i Hi) as (cell & Hcell & Hbuilt).
    exists cell. split; [done|].
    destruct (Cell_init_preprocess _ _ _ _ _ _ _ _ Hbuilt) as (Hr & Hp0 & Hp1).
    split_and!; [done..|]. by eapply Cell_init_length.
  - exists tn, tr. rewrite Hheap. simpl.
    split; [lia|]. split; [apply lookup_ge_None; lia|]. split; [apply lookup_ge_None; lia|].
    split; [by rewrite list_lookup_middle|].
    split; [|done].
    rewrite (cons_middle tn), app_assoc.
    by rewrite list_lookup_middle by (rewrite length_app; simpl; lia).
Qed.
End emnist.

(** The [EMNIST] network with three layers and four steps. *)
Lemma EMNIST_init_layout_witness :
  EMNIST.stem narrow_emnist_run.1 = Sequential (Conv2d 1 48 3 1 false) (BatchNorm2d 48 true) /\
  length (EMNIST.cells narrow_emnist_run.1) = 3 /\
  EMNIST.classifier narrow_emnist_run.1 = Linear 128 10.
Proof.
  destruct (@EMNIST_init_layout small_registry Z Z_scalar 16 10 3 "criterion" "cpu" 4 2 3
              empty_state narrow_emnist_run.2 narrow_emnist_run.1 narrow_emnist_built)
    as (Hstem & Hlen & Hcls & _).
  split_and!; [exact Hstem|exact Hlen|exact Hcls].
Defined.

(** ** Measuring a freshly built network *)

Section measure.
Context `{Registry} `{ScalarOrder W}.

(** Right after construction, [get_current_model_size] returns: the model
    it measures has one single-choice cell per layer of the network, each
    with one operation per edge and the reduction flag of the search cell
    at the same position, and a classifier of the same shape as the
    network's; the heap is as construction left it. *)
Theorem get_current_model_size_after_init {R}
    (count_parameters_in_MB : ModelForModelSizeMeasure.t -> R)
    (C num_classes layers : Z) (criterion device : string)
    (steps multiplier stem_multiplier : Z) (s s1 : state W) (net : Network.t) :
  (forall p, p ∈ PRIMITIVES -> p ∈ OPS_keys) ->
  0 < length PRIMITIVES <= length OPS_keys ->
  Network.init C num_classes layers criterion device steps multiplier stem_multiplier s
    = (Some net, s1) ->
  exists model s2,
    Network.get_current_model_size count_parameters_in_MB net s1
      = (Some (count_parameters_in_MB model), s2) /\
    heap s2 = heap s1 /\
    length (ModelForModelSizeMeasure.cells model) = length (Network.cells net) /\
    ModelForModelSizeMeasure.classifier model = Network.classifier net /\
    forall i cell, ModelForModelSizeMeasure.cells model !! i = Some cell ->
      length (InnerCell._ops cell) = edges_before (Z.to_nat steps) /\
      Some (InnerCell.reduction cell) = Cell.reduction <$> Network.cells net !! i.
Proof.
  intros Hkeys [Hpos Hle] Hinit.
  destruct (Network_init_run C num_classes layers criterion device steps multiplier
              stem_multiplier s Hkeys)
    as (net' & s1' & tn & tr & hn & hr & Hinit' & Hheap & Htn & Htr & Han & Har
        & HC & Hnc & Hl & Hst & Hm & Hsm & _).
  rewrite Hinit in Hinit'. injection Hinit' as <- <-.
  destruct (Network_init_built _ _ _ _ _ _ _ _ _ _ _ Hinit) as (Hlen & _ & Hcls & Hcells).
  assert (heap s1 !! Network.alphas_normal net = Some tn) as Hn
    by (rewrite Hheap, Han; by apply list_lookup_middle).
  assert (heap s1 !! Network.alphas_reduce net = Some tr) as Hr.
  { rewrite Hheap, Har, (cons_middle tn), app_assoc.
    apply list_lookup_middle. rewrite length_app. simpl. lia. }
  assert (forall t : table W,
            well_shaped (edges_before (Z.to_nat steps)) (length PRIMITIVES) t ->
            edges_before (Z.to_nat steps) <= length (rows t) /\ rows_resolvable t) as Hok.
  { intros t (_ & Hrows & Hcols). split; [lia|].
    eapply Forall_impl; [exact Hcols|]. intros row Hrow. simpl in Hrow.
    split; [destruct row; simpl in *; [lia|done]|lia]. }
  destruct (Hok tn Htn) as [Hrn Hresn]. destruct (Hok tr Htr) as [Hrr Hresr].
  set (Pmodel := fun model : ModelForModelSizeMeasure.t =>
         length (ModelForModelSizeMeasure.cells model) = Z.to_nat layers /\
         ModelForModelSizeMeasure.classifier model = Network.classifier net /\
         forall i, i < Z.to_nat layers -> exists cell,
           ModelForModelSizeMeasure.cells model !! i = Some (cell : InnerCell.t) /\
           length (InnerCell._ops cell) = edges_before (Z.to_nat steps) /\
           InnerCell.reduction cell = is_reduction_layer layers i).
  set (Pcell := fun (_ _ _ : Z) (r _ : bool) (cell : InnerCell.t) =>
         length (InnerCell._ops cell) = edges_before (Z.to_nat steps) /\
         InnerCell.reduction cell = r).
  assert (forall (a b c : Z) (r rp : bool),
            ro (Network.arch_parameters net) (heap s1)
               (if r
                then InnerCell.init steps multiplier a b c r rp (Network.alphas_reduce net)
                else InnerCell.init steps multiplier a b c r rp (Network.alphas_normal net))
               (loop_post False (Pcell a b c r rp))) as Hcell.
  { intros a b c r rp. unfold Network.arch_parameters. destruct r.
    - eapply ro_weaken; [|eapply ro_conseq; [by eapply InnerCell_init_spec|]].
      + intros l Hl'. rewrite !elem_of_cons in *. tauto.
      + intros [cell|]; simpl; [|done]. intros ((Hops & _) & Hred & _). done.
    - eapply ro_weaken; [|eapply ro_conseq; [by eapply InnerCell_init_spec|]].
      + intros l Hl'. rewrite !elem_of_cons in *. tauto.
      + intros [cell|]; simpl; [|done]. intros ((Hops & _) & Hred & _). done. }
  assert (ro (Network.arch_parameters net) (heap s1)
             (ModelForModelSizeMeasure.init C num_classes layers (Network._criterion net)
                (Network.alphas_normal net) (Network.alphas_reduce net)
                steps multiplier stem_multiplier)
             (loop_post False Pmodel)) as Hmodel.
  { unfold ModelForModelSizeMeasure.init.
    eapply ro_bind.
    - apply (stack_cells_layout (Network.arch_parameters net) (heap s1) False Pcell).
      exact Hcell.
    - intros [cells C_prev] (Hlen' & HCp & Hcells'). simpl in Hlen', HCp, Hcells'.
      apply ro_ret. simpl. split_and!; [done| |done].
      rewrite Hcls. by rewrite HCp.
    - done. }
  assert (ro (Network.arch_parameters net) (heap s1)
            (Network.get_current_model_size count_parameters_in_MB net)
            (loop_post False (fun size => exists model,
               size = count_parameters_in_MB model /\ Pmodel model))) as Hro.
  { unfold Network.get_current_model_size. rewrite HC, Hnc, Hl, Hst, Hm, Hsm.
    eapply ro_bind; [exact Hmodel| |done].
    intros model Hm'. apply ro_ret. simpl. by exists model. }
  destruct (Hro s1 eq_refl) as ([size|] & evs & Hrun & _ & Hpost); [|done].
  simpl in Hpost. destruct Hpost as (model & -> & Hlen' & Hcls' & Hcells').
  exists model. eexists. split; [exact Hrun|]. split_and!; [done|lia|done|].
  intros i cell Hlook. pose proof (lookup_lt_Some _ _ _ Hlook) as Hi. rewrite Hlen' in Hi.
  destruct (Hcells' i Hi) as (cell' & Hcell' & Hops & Hred).
  assert (cell' = cell) as -> by congruence. split; [done|].
  destruct (Hcells i Hi) as (scell & -> & Hbuilt). simpl.
  destruct (Cell_init_preprocess _ _ _ _ _ _ _ _ Hbuilt) as (-> & _). by rewrite Hred.
Qed.
End measure.

(** Measuring the small network. *)
Lemma get_current_model_size_after_init_witness :
  exists model s2,
    @Network.get_current_model_size small_registry Z Z_scalar _
       (fun m => length (ModelForModelSizeMeasure.cells m))
       small_network_run.1 small_network_run.2
    = (Some (length (ModelForModelSizeMeasure.cells model)), s2) /\
    length (ModelForModelSizeMeasure.cells model) = 3.
Proof.
  destruct (@get_current_model_size_after_init small_registry Z Z_scalar Z_scalar_order _
              (fun m => length (ModelForModelSizeMeasure.cells m))
              16 10 3 "criterion" "cpu" 2 2 3 empty_state small_network_run.2
              small_network_run.1 small_registry_keys
              ltac:(simpl; lia) small_network_built)
    as (model & s2 & Hrun & _ & Hlen & _).
  exists model, s2. split; [exact Hrun|exact Hlen].
Defined.

(** ** The forward pass of an inner cell *)

Section inner_forward.
Context `{Tensor W T}.

Lemma inner_node_state_app (c : InnerCell.t) (states more : list T) i :
  inner_node_state c states i -> inner_node_state c (states ++ more) i.
Proof.
  intros (term & Hs & Hterms). exists term.
  split; [by apply lookup_app_l_Some|].
  intros j Hj. destruct (Hterms j Hj) as (op & h & ? & ? & ?).
  exists op, h. split_and!; [done|by apply lookup_app_l_Some|done].
Qed.

Lemma inner_forward_step_spec (c : InnerCell.t) (states : list T) i :
  length states = i + 2 ->
  edges_before (S i) <= length (InnerCell._ops c) ->
  exists t,
    InnerCell.forward_step c (states, edges_before i) i
      = Some (states ++ [t], edges_before (S i)) /\
    inner_node_state c (states ++ [t]) i.
Proof.
  intros Hlen Hops. rewrite edges_before_S in Hops.
  unfold InnerCell.forward_step.
  destruct (mapM _ (imap pair states)) as [terms|] eqn:Hterms; simpl.
  - exists (py_sum terms). rewrite edges_before_S, Hlen. split; [done|].
    pose proof (length_mapM _ _ _ Hterms) as Hl. rewrite length_imap in Hl.
    apply mapM_Some in Hterms. exists (fun k => default tzero (terms !! k)). split.
    + rewrite lookup_app_r by lia. replace (i + 2 - length states) with 0 by lia.
      simpl. rewrite py_sum_sum_upto. do 2 f_equal. lia.
    + intros j Hj.
      destruct (lookup_lt_is_Some_2 states j ltac:(lia)) as [h Hh].
      destruct (Forall2_lookup_l _ _ _ j (j, h) Hterms) as (t & Ht & Hf).
      { by rewrite list_lookup_imap, Hh. }
      simpl in Hf.
      destruct (InnerCell._ops c !! (edges_before i + j)) as [op|]; simpl in Hf; [|done].
      exists op, h. rewrite Ht. simpl.
      split_and!; [done|by apply lookup_app_l_Some|congruence].
  - exfalso.
    assert (is_Some (mapM (fun '(j, h) =>
              op ← InnerCell._ops c !! (edges_before i + j);
              Some (run op h)) (imap pair states))) as [? Hs];
      [|congruence].
    apply mapM_is_Some_2, Forall_lookup. intros j [j' h] Hjh. unfold compose.
    apply list_lookup_imap_Some in Hjh as (h' & Hh & [= -> ->]).
    apply lookup_lt_Some in Hh.
    destruct (lookup_lt_is_Some_2 (InnerCell._ops c) (edges_before i + j) ltac:(lia))
      as [op ->].
    by eexists.
Qed.

Lemma inner_forward_loop_spec (c : InnerCell.t) (s0 s1 : T) steps n :
  n <= steps ->
  edges_before steps <= length (InnerCell._ops c) ->
  exists states,
    for_each (InnerCell.forward_step c) (seq 0 n) ([s0; s1], 0)
      = Some (states, edges_before n) /\
    length states = n + 2 /\
    states !! 0 = Some s0 /\ states !! 1 = Some s1 /\
    forall i, i < n -> inner_node_state c states i.
Proof.
  intros Hn Hops. induction n as [|n IH].
  - exists [s0; s1]. split_and!; try done. intros i Hi. lia.
  - destruct IH as (states & Hloop & Hlen & Hs0 & Hs1 & Hnodes); [lia|].
    pose proof (edges_before_mono (S n) steps Hn) as Hm.
    destruct (inner_forward_step_spec c states n Hlen ltac:(lia)) as (t & Hstep & Hnode).
    exists (states ++ [t]).
    rewrite seq_S, for_each_snoc, Hloop. simpl.
    split_and!; [done|rewrite length_app; simpl; lia|by apply lookup_app_l_Some..|].
    intros i Hi. destruct (decide (i = n)) as [->|]; [done|].
    apply inner_node_state_app, Hnodes. lia.
Qed.

(** [InnerCell.forward] on a cell with an operation for each of its edges
    and [1 <= multiplier <= steps + 2]: the list of states starts with the
    two preprocessed inputs and continues, for each intermediate node [i],
    with the sum ([0 + t_0 + ... + t_(i+1)], added in this order) over the
    [i + 2] earlier states [h] (at position [j]) of the single operation of
    edge [edges_before i + j] applied to [h]; the result is the
    concatenation of the last [multiplier] states. With fewer operations
    than edges the call raises. *)
Theorem InnerCell_forward_states (c : InnerCell.t) (s0 s1 : T) :
  let steps := Z.to_nat (InnerCell._steps c) in
  let multiplier := Z.to_nat (InnerCell._multiplier c) in
  (1 <= InnerCell._multiplier c <= InnerCell._steps c + 2)%Z ->
  (edges_before steps <= length (InnerCell._ops c) ->
   exists states,
     InnerCell.forward c s0 s1 = Some (cat (drop (steps + 2 - multiplier) states)) /\
     length states = steps + 2 /\
     length (drop (steps + 2 - multiplier) states) = multiplier /\
     states !! 0 = Some (run (InnerCell.preprocess0 c) s0) /\
     states !! 1 = Some (run (InnerCell.preprocess1 c) s1) /\
     forall i, i < steps -> inner_node_state c states i) /\
  (length (InnerCell._ops c) < edges_before steps -> InnerCell.forward c s0 s1 = None).
Proof.
  intros steps multiplier Hmult. split.
  - intros Hops.
    destruct (inner_forward_loop_spec c (run (InnerCell.preprocess0 c) s0)
                (run (InnerCell.preprocess1 c) s1) steps steps (le_n _) Hops)
      as (states & Hloop & Hlen & Hs0 & Hs1 & Hnodes).
    exists states. unfold InnerCell.forward. fold steps. rewrite Hloop. simpl.
    assert (slice_from (- InnerCell._multiplier c) states
            = drop (steps + 2 - multiplier) states) as ->.
    { unfold slice_from. rewrite Hlen.
      replace (- InnerCell._multiplier c <? 0)%Z with true
        by (symmetry; apply Z.ltb_lt; lia).
      f_equal. subst steps multiplier. lia. }
    assert (length (drop (steps + 2 - multiplier) states) = multiplier) as Hdrop
      by (rewrite length_drop, Hlen; subst steps multiplier; lia).
    split_and!; try done.
    apply torch_cat_Some. intros Hnil. rewrite Hnil in Hdrop. simpl in Hdrop.
    subst multiplier. lia.
  - intros Hshort.
    destruct (edges_before_bracket _ _ Hshort) as (i & Hi & Hlo & Hhi).
    destruct (inner_forward_loop_spec c (run (InnerCell.preprocess0 c) s0)
                (run (InnerCell.preprocess1 c) s1) i i (le_n _) Hlo)
      as (states & Hloop & Hlen & _).
    unfold InnerCell.forward. fold steps. rewrite (seq_split_at _ i Hi), for_each_app, Hloop.
    cbn [mbind option_bind for_each].
    assert (InnerCell.forward_step c (states, edges_before i) i = None) as ->; [|done].
    unfold InnerCell.forward_step.
    assert (mapM (fun '(j, h) =>
              op ← InnerCell._ops c !! (edges_before i + j);
              Some (run op h)) (imap pair states) = None) as ->; [|done].
    rewrite edges_before_S in Hhi.
    destruct (lookup_lt_is_Some_2 states (length (InnerCell._ops c) - edges_before i)
                ltac:(lia)) as [h Hh].
    apply mapM_None, Exists_exists.
    exists (length (InnerCell._ops c) - edges_before i, h). split.
    + apply list_elem_of_lookup. exists (length (InnerCell._ops c) - edges_before i).
      by rewrite list_lookup_imap, Hh.
    + replace (edges_before i + (length (InnerCell._ops c) - edges_before i))
        with (length (InnerCell._ops c)) by lia.
      by rewrite (lookup_ge_None_2 (InnerCell._ops c)) by lia.
Qed.
End inner_forward.

(** The forward pass of the inner cell that the size estimator builds from
    the first table of the small network. *)
Lemma InnerCell_forward_states_witness :
  exists cell s',
    @InnerCell.init small_registry Z Z_scalar 2 2 48 48 32 true false 0 small_network_run.2
      = (Some cell, s') /\
    is_Some (@InnerCell.forward Z Z Z_tensor cell 3%Z 4%Z).
Proof.
  eexists _, _. split; [vm_compute; reflexivity|].
  lazymatch goal with
  | |- is_Some (InnerCell.forward ?c _ _) =>
      destruct (@InnerCell_forward_states Z Z Z_tensor c 3%Z 4%Z ltac:(simpl; lia))
        as [Hreturns _]
  end.
  destruct (Hreturns ltac:(vm_compute; lia)) as (states & Hfwd & _).
  eexists. exact Hfwd.
Defined.

